(** * Eco-BinGo: the route optimisation core of [backend.py]

    The development embeds [calculate_distance], [optimize_route_tsp] and
    the [/api/optimize] handler [optimize_route] and checks the properties
    the specification states about them.

    Numbers.  Python's [float] values are idealised as real numbers: every
    arithmetic operation and every [math] function is taken to be exact,
    so rounding errors, infinities and NaN are outside the model.  An
    exception raised by the code is the result [None].

    Statements.  In exact arithmetic [calculate_distance] returns on every
    input; in binary64 it raises on some (the Haversine term of two
    antipodal points can round above 1), two distances that differ can
    round to the same number and a small leg can vanish in a sum.  The
    theorems about the solver and the handler are therefore stated of the
    results a call returns ([... = Some _ -> ...]), with the selection and
    the totals over the distances the code computes ([distance_to _ _ =
    Some k]) rather than over the exact formula, and with non-strict
    inequalities where rounding can lose a strict one.  The lemmas that
    evaluate the model in exact arithmetic ([calculate_distance_total],
    [optimize_route_tsp_reference], [evaluate_total]) serve the proofs and
    the concrete inputs. *)

From Stdlib Require Import Reals Lra Lia Psatz ZArith List String Bool.
From Stdlib Require Import Permutation Sorted DecimalString DecimalZ Ascii.
Import ListNotations.

Local Open Scope R_scope.

(** ** Exceptions as [option] *)

Definition bind {A B : Type} (m : option A) (k : A -> option B) : option B :=
  match m with
  | Some a => k a
  | None => None
  end.

Notation "x <- m ;; k" := (bind m (fun x => k))
  (at level 61, m at next level, right associativity).

(** ** The [math] module *)

(** [math.radians]. *)
Definition radians (x : R) : R := x * (PI / 180).

(** [math.sqrt]: a negative argument raises [ValueError]. *)
Definition py_sqrt (x : R) : option R :=
  if Rle_dec 0 x then Some (sqrt x) else None.

(** [math.atan2 y x], the angle of the point [(x, y)] in [(-PI, PI]]. *)
Definition atan2 (y x : R) : R :=
  if Rlt_dec 0 x then atan (y / x)
  else if Rlt_dec x 0 then
    (if Rle_dec 0 y then atan (y / x) + PI else atan (y / x) - PI)
  else if Rlt_dec 0 y then PI / 2
  else if Rlt_dec y 0 then - (PI / 2)
  else 0.

(** ** Rounding: the builtin [round] *)

(** [round(x)] of a float is the nearest integer, a tie going to the even
    neighbour. *)
Definition round_half_even (x : R) : Z :=
  let f := Zfloor x in
  let r := x - IZR f in
  if Rlt_dec r (1 / 2) then f
  else if Rlt_dec (1 / 2) r then (f + 1)%Z
  else if Z.even f then f else (f + 1)%Z.

Definition py_round (x : R) : Z := round_half_even x.

(** [round(x, ndigits)] keeps [ndigits] decimal digits. *)
Definition py_round_ndigits (x : R) (ndigits : nat) : R :=
  IZR (round_half_even (x * 10 ^ ndigits)) / 10 ^ ndigits.

(** ** [calculate_distance] *)

Definition calculate_distance (lat1 lon1 lat2 lon2 : R) : option R :=
  let R_ := 6371 in
  let lat1 := radians lat1 in
  let lon1 := radians lon1 in
  let lat2 := radians lat2 in
  let lon2 := radians lon2 in
  let dlat := lat2 - lat1 in
  let dlon := lon2 - lon1 in
  let a := sin (dlat / 2) ^ 2 + cos lat1 * cos lat2 * sin (dlon / 2) ^ 2 in
  sa <- py_sqrt a ;;
  sb <- py_sqrt (1 - a) ;;
  let c := 2 * atan2 sa sb in
  Some (R_ * c).

(** ** Data: bins to collect, the truck *)

(** An element of [bins_to_collect]: the dict with keys
    ["id"], ["name"], ["lat"], ["lon"], ["fill"]. *)
Record Bin : Type := mkBin {
  bin_id : string;
  bin_name : string;
  bin_lat : R;
  bin_lon : R;
  bin_fill : R
}.

(** Equality of two such dicts ([==]), which [list.remove] uses. *)
Definition Bin_eq_dec (x y : Bin) : {x = y} + {x <> y}.
Proof.
  decide equality; solve [apply Req_dec_T | apply string_dec].
Defined.

(** A position: what [current["lat"]], [current["lon"]] read. *)
Definition Pos : Type := (R * R)%type.

Definition bin_pos (b : Bin) : Pos := (bin_lat b, bin_lon b).

(** The call [calculate_distance(current["lat"], current["lon"],
    b["lat"], b["lon"])]. *)
Definition distance_to (current : Pos) (b : Bin) : option R :=
  calculate_distance (fst current) (snd current) (bin_lat b) (bin_lon b).

(** ** The builtins [min(_, key=_)] and [list.remove] *)

(** The scan of [min]: the running best is replaced only by an item whose
    key is strictly smaller. *)
Fixpoint min_scan (key : Bin -> option R) (best : Bin) (best_key : R)
    (rest : list Bin) : option Bin :=
  match rest with
  | [] => Some best
  | item :: rest' =>
      val <- key item ;;
      if Rlt_dec val best_key
      then min_scan key item val rest'
      else min_scan key best best_key rest'
  end.

(** [min(l, key=key)]; an empty [l] raises [ValueError]. *)
Definition py_min (key : Bin -> option R) (l : list Bin) : option Bin :=
  match l with
  | [] => None
  | first :: rest => v <- key first ;; min_scan key first v rest
  end.

(** [l.remove(x)]: the first element equal to [x] goes; none raises
    [ValueError]. *)
Fixpoint list_remove (x : Bin) (l : list Bin) : option (list Bin) :=
  match l with
  | [] => None
  | y :: l' =>
      if Bin_eq_dec y x then Some l'
      else l'' <- list_remove x l' ;; Some (y :: l'')
  end.

(** ** [optimize_route_tsp] *)

(** The variables of the [while] loop. *)
Record tsp_state : Type := mkState {
  remaining : list Bin;
  route : list Bin;
  current : Pos;
  total_distance : R
}.

(** One pass through the body of [while remaining:]. *)
Definition tsp_body (s : tsp_state) : option tsp_state :=
  nearest <- py_min (distance_to (current s)) (remaining s) ;;
  dist <- distance_to (current s) nearest ;;
  remaining' <- list_remove nearest (remaining s) ;;
  Some {| remaining := remaining';
          route := route s ++ [nearest];
          current := bin_pos nearest;
          total_distance := total_distance s + dist |}.

(** The loop, bounded by [fuel] passes; running out of passes is [None]. *)
Fixpoint tsp_while (fuel : nat) (s : tsp_state) : option tsp_state :=
  match remaining s with
  | [] => Some s
  | _ :: _ =>
      match fuel with
      | O => None
      | S fuel' => s' <- tsp_body s ;; tsp_while fuel' s'
      end
  end.

Definition optimize_route_tsp_fuel (fuel : nat) (truck_pos : Pos)
    (bins : list Bin) : option (list Bin * R) :=
  match bins with
  | [] => Some ([], 0)
  | _ :: _ =>
      s <- tsp_while fuel {| remaining := bins;
                             route := [];
                             current := truck_pos;
                             total_distance := 0 |} ;;
      Some (route s, total_distance s)
  end.

(** Each pass removes one element of [remaining], so [len(bins)] passes
    are enough. *)
Definition optimize_route_tsp (truck_pos : Pos) (bins : list Bin)
    : option (list Bin * R) :=
  optimize_route_tsp_fuel (List.length bins) truck_pos bins.

(** ** The handler [optimize_route] of [/api/optimize] *)

(** A value of the global dict [dustbins]. *)
Record Dustbin : Type := mkDustbin {
  name : string;
  location : string;
  lat : R;
  lon : R;
  fill : R;
  status : string
}.

(** The global dict [truck]; [None] is Python's [None]. *)
Record Truck : Type := mkTruck {
  truck_lat : option R;
  truck_lon : option R;
  timestamp : option string
}.

(** The comprehension that builds [bins_to_collect] from
    [dustbins.items()], a dict in insertion order. *)
Definition bins_to_collect (dustbins : list (string * Dustbin)) : list Bin :=
  map (fun kv => mkBin (fst kv) (name (snd kv)) (lat (snd kv))
                       (lon (snd kv)) (fill (snd kv)))
      (filter (fun kv => if Rle_dec 50 (fill (snd kv)) then true else false)
              dustbins).

(** The [for i in range(len(random_bins) - 1)] loop, over the indices [idxs]
    still to visit; an index out of range raises [IndexError]. *)
Fixpoint random_distance_loop (random_bins : list Bin) (idxs : list nat)
    (random_distance : R) : option R :=
  match idxs with
  | [] => Some random_distance
  | i :: idxs' =>
      b <- nth_error random_bins i ;;
      b' <- nth_error random_bins (i + 1) ;;
      d <- calculate_distance (bin_lat b) (bin_lon b) (bin_lat b') (bin_lon b') ;;
      random_distance_loop random_bins idxs' (random_distance + d)
  end.

(** The distance of the comparison route, from [random_distance = 0] to the
    end of the loop. *)
Definition random_route_distance (random_bins : list Bin) : option R :=
  if (1 <? List.length random_bins)%nat
  then random_distance_loop random_bins
         (seq 0 (List.length random_bins - 1)) 0
  else Some 0.

(** The local variables of [optimize_route] once the metrics are computed. *)
Record locals : Type := mkLocals {
  optimal_route : list Bin;
  optimal_distance : R;
  random_bins : list Bin;
  random_distance : R;
  optimal_fuel : R;
  fuel_cost : R;
  savings : R;
  efficiency : R
}.

(** The computation from the call of [optimize_route_tsp] to the metrics.
    [shuffle] is the permutation [random.shuffle] draws. *)
Definition evaluate (shuffle : list Bin -> list Bin) (truck_pos : Pos)
    (bins : list Bin) : option locals :=
  solved <- optimize_route_tsp truck_pos bins ;;
  let optimal_route := fst solved in
  let optimal_distance := snd solved in
  let random_bins := shuffle bins in
  random_distance <- random_route_distance random_bins ;;
  let optimal_fuel := optimal_distance / 12 in
  let fuel_cost := optimal_fuel * 100 in
  let savings :=
    if Rlt_dec 0 random_distance
    then (random_distance / 12 - optimal_fuel) * 100 else 0 in
  let efficiency :=
    if Rlt_dec 0 random_distance
    then (random_distance - optimal_distance) / random_distance * 100
    else 0 in
  Some (mkLocals optimal_route optimal_distance random_bins random_distance
                 optimal_fuel fuel_cost savings efficiency).

(** The JSON document of a computed route. *)
Record report : Type := mkReport {
  r_optimal_distance : R;
  r_random_distance : R;
  r_optimal_fuel : R;
  r_optimal_cost : Z;
  r_savings : Z;
  r_efficiency_gain : Z;
  r_route : list (string * string)
}.

Definition report_of (ev : locals) : report :=
  {| r_optimal_distance := py_round_ndigits (optimal_distance ev) 2;
     r_random_distance := py_round_ndigits (random_distance ev) 2;
     r_optimal_fuel := py_round_ndigits (optimal_fuel ev) 2;
     r_optimal_cost := py_round (fuel_cost ev);
     r_savings := py_round (savings ev);
     r_efficiency_gain := py_round (efficiency ev);
     r_route := map (fun b => (bin_id b, bin_name b)) (optimal_route ev) |}.

(** The bodies the handler can send. *)
Inductive body : Type :=
| ErrorBody (error : string)
| MessageBody (message : string) (optimal_distance : Z)
              (route : list (string * string))
| ReportBody (r : report)
| ExceptionBody.

(** A response: the JSON body and the HTTP status. *)
Definition response : Type := (body * Z)%type.

Definition gps_error : string :=
  "Truck GPS not received yet. Open /gps on your phone and press Start Tracking.".

Definition optimize_route (shuffle : list Bin -> list Bin) (truck : Truck)
    (dustbins : list (string * Dustbin)) : response :=
  match truck_lat truck, truck_lon truck with
  | Some tlat, Some tlon =>
      let bins := bins_to_collect dustbins in
      match bins with
      | [] => (MessageBody "No bins need collection" 0 [], 200%Z)
      | _ :: _ =>
          match evaluate shuffle (tlat, tlon) bins with
          | Some ev => (ReportBody (report_of ev), 200%Z)
          | None => (ExceptionBody, 500%Z)
          end
      end
  | _, _ => (ErrorBody gps_error, 400%Z)
  end.

(** [random.shuffle] returns some rearrangement of its argument. *)
Definition is_shuffle (shuffle : list Bin -> list Bin) : Prop :=
  forall l, Permutation l (shuffle l).

(** ** The specification's reference definitions *)

(** The Haversine formula of the specification, with Earth radius 6371 km. *)
Definition haversine_term (a b : Pos) : R :=
  let phi1 := radians (fst a) in
  let phi2 := radians (fst b) in
  let dphi := radians (fst b - fst a) in
  let dlambda := radians (snd b - snd a) in
  sin (dphi / 2) ^ 2 + cos phi1 * cos phi2 * sin (dlambda / 2) ^ 2.

Definition haversine (a b : Pos) : R :=
  let h := haversine_term a b in
  2 * 6371 * atan2 (sqrt h) (sqrt (1 - h)).

(** The waypoint of [pool] at minimum distance from [cur]; of several at
    that distance, the one met first. *)
Fixpoint nearest_in (cur : Pos) (pool : list Bin) : option Bin :=
  match pool with
  | [] => None
  | w :: pool' =>
      match nearest_in cur pool' with
      | None => Some w
      | Some w' =>
          if Rlt_dec (haversine cur (bin_pos w')) (haversine cur (bin_pos w))
          then Some w' else Some w
      end
  end.

(** The pool without (the first occurrence of) [w]. *)
Fixpoint remove_first (w : Bin) (pool : list Bin) : list Bin :=
  match pool with
  | [] => []
  | x :: pool' => if Bin_eq_dec x w then pool' else x :: remove_first w pool'
  end.

(** Greedy nearest neighbour: select, append, move, [n] times at most. *)
Fixpoint greedy_order (n : nat) (cur : Pos) (pool : list Bin) : list Bin :=
  match n with
  | O => []
  | S n' =>
      match nearest_in cur pool with
      | None => []
      | Some w => w :: greedy_order n' (bin_pos w) (remove_first w pool)
      end
  end.

(** The sum of the consecutive pairwise distances along an order. *)
Fixpoint consecutive_sum (order : list Bin) : R :=
  match order with
  | w :: (w' :: _) as rest =>
      haversine (bin_pos w) (bin_pos w') + consecutive_sum rest
  | _ => 0
  end.

(** The leg from the start to the first waypoint, plus the sum of the
    consecutive pairwise distances. *)
Definition route_length (start : Pos) (order : list Bin) : R :=
  match order with
  | [] => 0
  | w :: _ => haversine start (bin_pos w) + consecutive_sum order
  end.

Definition reference_solve (start : Pos) (waypoints : list Bin)
    : list Bin * R :=
  let order := greedy_order (List.length waypoints) start waypoints in
  (order, route_length start order).

(** The selection rule with its tie-break, as a relation between the start,
    the pool and the visiting order: the chosen waypoint is strictly nearer
    than every waypoint before it in the pool and at least as near as every
    waypoint after it. *)
Inductive first_nearest_order : Pos -> list Bin -> list Bin -> Prop :=
| fno_done : forall cur, first_nearest_order cur [] []
| fno_pick : forall cur before w after order,
    Forall (fun x => haversine cur (bin_pos w) < haversine cur (bin_pos x))
           before ->
    Forall (fun x => haversine cur (bin_pos w) <= haversine cur (bin_pos x))
           after ->
    first_nearest_order (bin_pos w) (before ++ after) order ->
    first_nearest_order cur (before ++ w :: after) (w :: order).

(** A whole number; a number with two decimal digits. *)
Definition whole (x : R) : Prop := exists z : Z, x = IZR z.

Definition two_decimals (x : R) : Prop := exists z : Z, x = IZR z / 100.

(** ** The route in terms of the distances the code computes *)

(** The distances of the legs of a walk from [cur] along [order], each as
    [calculate_distance] returns it: from [cur] to the first waypoint, then
    between consecutive waypoints. *)
Fixpoint leg_distances (cur : Pos) (order : list Bin) : option (list R) :=
  match order with
  | [] => Some []
  | w :: rest =>
      k <- distance_to cur w ;;
      ks <- leg_distances (bin_pos w) rest ;;
      Some (k :: ks)
  end.

(** The distances between the consecutive waypoints of [order] only. *)
Definition consecutive_distances (order : list Bin) : option (list R) :=
  match order with
  | [] => Some []
  | w :: rest => leg_distances (bin_pos w) rest
  end.

(** A running total: the legs added one after the other, from 0. *)
Definition running_total (legs : list R) : R := fold_left Rplus legs 0.


(** The same with the tie-break: every waypoint before the chosen one in
    the pool has a strictly larger computed distance, so of several
    waypoints at the least computed distance the first is chosen. *)
Inductive first_nearest_route : Pos -> list Bin -> list Bin -> Prop :=
| first_nearest_done : forall cur, first_nearest_route cur [] []
| first_nearest_pick : forall cur before w after k order,
    distance_to cur w = Some k ->
    Forall (fun x => exists kx, distance_to cur x = Some kx /\ k < kx) before ->
    Forall (fun x => exists kx, distance_to cur x = Some kx /\ ~ kx < k) after ->
    first_nearest_route (bin_pos w) (before ++ after) order ->
    first_nearest_route cur (before ++ w :: after) (w :: order).

(** The tolerance, in kilometres, within which a computed distance counts
    as zero and two arcs as equal: far above the rounding errors of the
    computation, far below any distance that matters. *)
Definition floating_tolerance : R := 1 / 10 ^ 9.


(** ** Concrete inputs *)

(** The globals [truck] and [dustbins] as the module initialises them. *)
Definition truck_initial : Truck := mkTruck None None None.

Definition dustbins_initial : list (string * Dustbin) :=
  [("1"%string,
    mkDustbin "Bin 1 - MITS College" "Bhujabal, Rayagada"
              (192461 / 10000) (834462 / 10000) 0 "EMPTY")].

(** A truck on the equator at longitude 0, and full bins on the equator. *)
Definition equator_truck : Truck := mkTruck (Some 0) (Some 0) None.

Definition equator_dustbin (bid : string) (lon : R) : string * Dustbin :=
  (bid, mkDustbin bid "Equator" 0 lon 80 "FULL").

Definition equator_bin (bid : string) (lon : R) : Bin :=
  mkBin bid bid 0 lon 80.

Definition one_dustbin : list (string * Dustbin) :=
  [equator_dustbin "1" (5 / 100)]%string.

Definition two_dustbins : list (string * Dustbin) :=
  [equator_dustbin "1" (25 / 100); equator_dustbin "2" (10025 / 100)]%string.

(** The draw of [random.shuffle] that leaves the list as it is. *)
Definition keep_order (l : list Bin) : list Bin := l.

(** * The registries and the other endpoints *)

(** ** The dict [dustbins]

    A dict keeps its keys in insertion order and holds a key once; the
    association list is read and written accordingly. *)

(** [k in d]. *)
Definition dict_has (k : string) (d : list (string * Dustbin)) : bool :=
  existsb (fun kv => String.eqb (fst kv) k) d.

(** [d[k]], where the key is present. *)
Fixpoint dict_get (k : string) (d : list (string * Dustbin)) : option Dustbin :=
  match d with
  | [] => None
  | kv :: d' => if String.eqb (fst kv) k then Some (snd kv) else dict_get k d'
  end.

(** [del d[k]]. *)
Definition dict_del (k : string) (d : list (string * Dustbin))
    : list (string * Dustbin) :=
  filter (fun kv => negb (String.eqb (fst kv) k)) d.

(** [d[k] = v]: a present key keeps its place, a new key goes last. *)
Fixpoint dict_set (k : string) (v : Dustbin) (d : list (string * Dustbin))
    : list (string * Dustbin) :=
  match d with
  | [] => [(k, v)]
  | kv :: d' =>
      if String.eqb (fst kv) k then (k, v) :: d' else kv :: dict_set k v d'
  end.

(** ** [delete_dustbin] *)

Definition delete_dustbin (bin_id : string) (dustbins : list (string * Dustbin))
    : list (string * Dustbin) * Z :=
  if dict_has bin_id dustbins
  then (dict_del bin_id dustbins, 200%Z)
  else (dustbins, 404%Z).

(** ** JSON request bodies *)

(** What [request.json] returns; an object is a dict read by [json_get]. *)
#[warnings="-register-all"]
Inductive json : Type :=
| JNull
| JBool (b : bool)
| JNum (x : R)
| JStr (s : string)
| JArr (items : list json)
| JObj (members : list (string * json)).

Fixpoint json_lookup (key : string) (members : list (string * json))
    : option json :=
  match members with
  | [] => None
  | kv :: members' =>
      if String.eqb (fst kv) key then Some (snd kv)
      else json_lookup key members'
  end.

(** [data.get(key, default)]; only a dict has the method, anything else
    raises [AttributeError]. *)
Definition json_get (data : json) (key : string) (default : json)
    : option json :=
  match data with
  | JObj members =>
      Some (match json_lookup key members with
            | Some v => v
            | None => default
            end)
  | _ => None
  end.

(** The builtin [float]: a number is itself, [True] and [False] are 1 and
    0, a string is parsed by [float_of_string] (the parser is a parameter;
    [None] is its [ValueError]), everything else raises [TypeError]. *)
Definition py_float (float_of_string : string -> option R) (v : json)
    : option R :=
  match v with
  | JNum x => Some x
  | JBool b => Some (if b then 1 else 0)
  | JStr s => float_of_string s
  | JNull | JArr _ | JObj _ => None
  end.

(** The finite binary64 numbers, [m * 2 ^ e] with [|m| < 2 ^ 53] and
    [-1074 <= e <= 971]: the numbers a float holds, which [float] returns
    as they are.  ([float] rounds any other number in range and raises
    [OverflowError] on an integer out of range; [py_float] does not model
    that, so a property of a converted number is stated for these only.) *)
Definition binary64 (x : R) : Prop :=
  exists m e : Z,
    (Z.abs m < 2 ^ 53)%Z /\ (-1074 <= e <= 971)%Z /\ x = IZR m * powerRZ 2 e.

(** A stored coordinate as a Python value: a float, or [None]. *)
Definition py_value (x : option R) : json :=
  match x with
  | Some r => JNum r
  | None => JNull
  end.

(** ** [update_truck]

    [request_json] is [request.json], [None] when reading it raises; [now]
    is [datetime.now().isoformat()].  The result is the dict [truck] after
    the call and the HTTP status. *)
Definition update_truck (float_of_string : string -> option R) (now : string)
    (request_json : option json) (truck : Truck) : Truck * Z :=
  match request_json with
  | None => (truck, 400%Z)
  | Some data =>
      match (v <- json_get data "lat" (py_value (truck_lat truck)) ;;
             py_float float_of_string v) with
      | None => (truck, 400%Z)
      | Some new_lat =>
          let truck1 := mkTruck (Some new_lat) (truck_lon truck)
                                (timestamp truck) in
          match (v <- json_get data "lon" (py_value (truck_lon truck1)) ;;
                 py_float float_of_string v) with
          | None => (truck1, 400%Z)
          | Some new_lon =>
              (mkTruck (Some new_lat) (Some new_lon) (Some now), 200%Z)
          end
      end
  end.

(** ** [add_dustbin] *)

(** [str] of an integer: its decimal numeral. *)
Definition py_str (z : Z) : string := NilZero.string_of_int (Z.to_int z).

(** [[int(k) for k in dustbins.keys()]]; [py_int] is the builtin [int] on
    strings, [None] its [ValueError]. *)
Fixpoint int_keys (py_int : string -> option Z) (d : list (string * Dustbin))
    : option (list Z) :=
  match d with
  | [] => Some []
  | kv :: d' =>
      n <- py_int (fst kv) ;;
      ns <- int_keys py_int d' ;;
      Some (n :: ns)
  end.

(** [max(l, default=0)]. *)
Definition max_default0 (l : list Z) : Z :=
  match l with
  | [] => 0%Z
  | n :: l' => fold_left Z.max l' n
  end.

(** The outcomes of [add_dustbin]: status 201 with the new dict and id;
    status 400 with the dict unchanged; and, outside this model, a request
    whose name or location is not a string (the code stores it as it is,
    the record has text fields only). *)
Inductive add_outcome : Type :=
| Added (dustbins' : list (string * Dustbin)) (new_id : string)
| AddRejected
| AddNotText.

Definition json_text (v : json) : option string :=
  match v with
  | JStr s => Some s
  | _ => None
  end.

Definition add_dustbin (py_int : string -> option Z)
    (float_of_string : string -> option R) (request_json : option json)
    (dustbins : list (string * Dustbin)) : add_outcome :=
  match
    (data <- request_json ;;
     ns <- int_keys py_int dustbins ;;
     let new_id := py_str (max_default0 ns + 1) in
     name_v <- json_get data "name" (JStr ("Bin " ++ new_id)) ;;
     location_v <- json_get data "location" (JStr "Unknown") ;;
     lat_v <- json_get data "lat" (JNum (1931 / 100)) ;;
     new_lat <- py_float float_of_string lat_v ;;
     lon_v <- json_get data "lon" (JNum (8402 / 100)) ;;
     new_lon <- py_float float_of_string lon_v ;;
     Some (new_id, name_v, location_v, new_lat, new_lon))
  with
  | None => AddRejected
  | Some (new_id, name_v, location_v, new_lat, new_lon) =>
      match json_text name_v, json_text location_v with
      | Some new_name, Some new_location =>
          Added (dict_set new_id
                   (mkDustbin new_name new_location new_lat new_lon 0 "EMPTY")
                   dustbins)
                new_id
      | _, _ => AddNotText
      end
  end.

(** ** [read_arduino_data]: one line of the sensor feed *)

(** [s.replace(old, new)] for a non-empty [old]: the occurrences are found
    from the left and do not overlap; [skip] counts the characters of a
    found occurrence still to pass over. *)
Fixpoint str_replace_from (old new : string) (skip : nat) (s : string) : string :=
  match s with
  | EmptyString => EmptyString
  | String c s' =>
      match skip with
      | S skip' => str_replace_from old new skip' s'
      | O =>
          if String.prefix old s
          then new ++ str_replace_from old new (String.length old - 1) s'
          else String c (str_replace_from old new 0 s')
      end
  end.

Definition str_replace (old new s : string) : string :=
  str_replace_from old new 0 s.

(** [s.split(sep)] for a one-character [sep]. *)
Fixpoint str_split (sep : Ascii.ascii) (s : string) : list string :=
  match s with
  | EmptyString => [EmptyString]
  | String c s' =>
      if Ascii.eqb c sep then EmptyString :: str_split sep s'
      else match str_split sep s' with
           | part :: parts => String c part :: parts
           | [] => [String c EmptyString]
           end
  end.

(** The assignments to [dustbins["1"]["fill"]] and [dustbins["1"]["status"]]. *)
Definition sensor_reading (fill_level : R) (b : Dustbin) : Dustbin :=
  mkDustbin (name b) (location b) (lat b) (lon b) fill_level
    (if Rle_dec 80 fill_level then "FULL"
     else if Rle_dec 50 fill_level then "MEDIUM"
     else "EMPTY").

(** What the reader thread does with one decoded and stripped [line]; an
    exception is swallowed by [except: pass]. *)
Definition read_arduino_line (float_of_string : string -> option R)
    (line : string) (dustbins : list (string * Dustbin))
    : list (string * Dustbin) :=
  if String.prefix "DATA|" line then
    match str_split "|" (str_replace "DATA|" "" line) with
    | part0 :: _ =>
        match float_of_string part0 with
        | Some fill_level =>
            match dict_get "1" dustbins with
            | Some b => dict_set "1" (sensor_reading fill_level b) dustbins
            | None => dustbins
            end
        | None => dustbins
        end
    | [] => dustbins
    end
  else dustbins.

(** ** [get_predictions] *)

Record prediction : Type := mkPrediction {
  p_bin_id : string;
  p_name : string;
  current_fill : R;
  days_until_full : R;
  urgency : string
}.

(** The entry appended to [preds] for a bin with [fill < 100]. *)
Definition prediction_of (kv : string * Dustbin) : prediction :=
  let b := snd kv in
  let days := (100 - fill b) / 15 in
  let urgency :=
    (if Rle_dec 80 (fill b) then "CRITICAL"
     else if Rle_dec 60 (fill b) then "HIGH"
     else "MEDIUM")%string in
  mkPrediction (fst kv) (name b) (fill b) (py_round_ndigits days 1) urgency.

(** [sorted(_, key=lambda x: x["days_until_full"])]: the stable sort, here
    by insertion; an entry goes before the first entry that is not
    strictly smaller. *)
Fixpoint insert_by_days (p : prediction) (l : list prediction)
    : list prediction :=
  match l with
  | [] => [p]
  | q :: l' =>
      if Rlt_dec (days_until_full q) (days_until_full p)
      then q :: insert_by_days p l'
      else p :: l
  end.

Definition sorted_by_days (l : list prediction) : list prediction :=
  fold_right insert_by_days [] l.

Definition get_predictions (dustbins : list (string * Dustbin))
    : list prediction :=
  sorted_by_days
    (map prediction_of
       (filter (fun kv => if Rlt_dec (fill (snd kv)) 100 then true else false)
               dustbins)).

(** The decimal parser [int] is on the numerals [str] writes. *)
Definition decimal_int (s : string) : option Z :=
  option_map Z.of_int (NilZero.int_of_string s).

(** A parser for the witnesses: the literal ["75"] reads 75, nothing else
    parses. *)
Definition float_75 (s : string) : option R :=
  if String.eqb s "75" then Some 75 else None.

(** ** Invariants of the registry *)

(** Every key is the numeral of an integer, as [str] writes it. *)
Definition numeral_keys (d : list (string * Dustbin)) : Prop :=
  Forall (fun kv => exists n : Z, fst kv = py_str n) d.

(** The status of a bin says where its fill level stands: ["FULL"] from 80,
    ["MEDIUM"] from 50, ["EMPTY"] below. *)
Definition status_matches (b : Dustbin) : Prop :=
  (80 <= fill b -> status b = "FULL"%string)
  /\ (50 <= fill b < 80 -> status b = "MEDIUM"%string)
  /\ (fill b < 50 -> status b = "EMPTY"%string).

(** [c in s] for a character. *)
Fixpoint str_has (c : Ascii.ascii) (s : string) : bool :=
  match s with
  | EmptyString => false
  | String c' s' => Ascii.eqb c' c || str_has c s'
  end.

(** * Properties *)

(** ** The distance model *)

Lemma radians_minus (x y : R) : radians (x - y) = radians x - radians y.
Proof. unfold radians; ring. Qed.

Lemma sin_sqr_bounds (x : R) : 0 <= sin x ^ 2 <= 1.
Proof.
  pose proof (sin2_cos2 x) as H. unfold Rsqr in H.
  pose proof (pow2_ge_0 (sin x)). pose proof (pow2_ge_0 (cos x)).
  split; nra.
Qed.

Lemma sin_half_sqr (x y : R) :
  sin ((x - y) / 2) ^ 2 = (1 - (cos x * cos y + sin x * sin y)) / 2.
Proof.
  rewrite <- cos_minus.
  replace (x - y) with (2 * ((x - y) / 2)) at 2 by field.
  rewrite cos_2a_sin. field.
Qed.

(** In exact arithmetic the Haversine term lies in [[0, 1]], whatever the
    coordinates.  (Binary64 rounding can carry the computed term one unit
    in the last place above 1, as for the antipodal points (8, 0) and
    (-8, 180); that is outside this model.) *)
Lemma haversine_term_bounds (a b : Pos) : 0 <= haversine_term a b <= 1.
Proof.
  unfold haversine_term; cbv zeta.
  rewrite radians_minus, sin_half_sqr.
  pose proof (sin_sqr_bounds (radians (snd b - snd a) / 2)) as [Ht0 Ht1].
  set (t := sin (radians (snd b - snd a) / 2) ^ 2) in *.
  pose proof (sin2_cos2 (radians (fst a))) as Ha.
  pose proof (sin2_cos2 (radians (fst b))) as Hb.
  unfold Rsqr in Ha, Hb.
  set (c1 := cos (radians (fst a))) in *. set (s1 := sin (radians (fst a))) in *.
  set (c2 := cos (radians (fst b))) in *. set (s2 := sin (radians (fst b))) in *.
  assert (H00 : 0 <= 1 - (c2 * c1 + s2 * s1))
    by (pose proof (Rle_0_sqr (c1 - c2)); pose proof (Rle_0_sqr (s1 - s2));
        unfold Rsqr in *; lra).
  assert (H01 : 0 <= 1 + c2 * c1 - s2 * s1)
    by (pose proof (Rle_0_sqr (c1 + c2)); pose proof (Rle_0_sqr (s1 - s2));
        unfold Rsqr in *; lra).
  assert (H10 : 0 <= 1 + (c2 * c1 + s2 * s1))
    by (pose proof (Rle_0_sqr (c1 + c2)); pose proof (Rle_0_sqr (s1 + s2));
        unfold Rsqr in *; lra).
  assert (H11 : 0 <= 1 - c2 * c1 + s2 * s1)
    by (pose proof (Rle_0_sqr (c1 - c2)); pose proof (Rle_0_sqr (s1 + s2));
        unfold Rsqr in *; lra).
  clear Ha Hb.
  split; nra.
Qed.

Lemma py_sqrt_nonneg (x : R) : 0 <= x -> py_sqrt x = Some (sqrt x).
Proof.
  intros Hx. unfold py_sqrt. destruct (Rle_dec 0 x); [reflexivity | contradiction].
Qed.

(** In exact arithmetic the code computes the specification's formula and
    never leaves the domain of the square root. *)
Lemma calculate_distance_total (lat1 lon1 lat2 lon2 : R) :
  calculate_distance lat1 lon1 lat2 lon2
  = Some (haversine (lat1, lon1) (lat2, lon2)).
Proof.
  pose proof (haversine_term_bounds (lat1, lon1) (lat2, lon2)) as [H0 H1].
  unfold calculate_distance, haversine; cbv zeta.
  replace (sin ((radians lat2 - radians lat1) / 2) ^ 2
           + cos (radians lat1) * cos (radians lat2)
             * sin ((radians lon2 - radians lon1) / 2) ^ 2)
    with (haversine_term (lat1, lon1) (lat2, lon2))
    by (unfold haversine_term; cbn [fst snd]; now rewrite !radians_minus).
  rewrite (py_sqrt_nonneg _ H0). cbn [bind].
  rewrite py_sqrt_nonneg by lra. cbn [bind].
  f_equal. ring.
Qed.

Lemma distance_to_total (cur : Pos) (b : Bin) :
  distance_to cur b = Some (haversine cur (bin_pos b)).
Proof.
  unfold distance_to. rewrite calculate_distance_total.
  now destruct cur.
Qed.

Lemma atan_nonneg (x : R) : 0 <= x -> 0 <= atan x.
Proof.
  intros [Hx | <-]; [| rewrite atan_0; lra].
  left. rewrite <- atan_0. now apply atan_increasing.
Qed.

Lemma atan2_nonneg (y x : R) : 0 <= y -> 0 <= x -> 0 <= atan2 y x.
Proof.
  intros Hy Hx. unfold atan2. pose proof PI_RGT_0.
  destruct (Rlt_dec 0 x) as [Hpos | Hnpos].
  - apply atan_nonneg. unfold Rdiv.
    apply Rmult_le_pos; [exact Hy | left; now apply Rinv_0_lt_compat].
  - destruct (Rlt_dec x 0); [lra |].
    destruct (Rlt_dec 0 y); [lra |].
    destruct (Rlt_dec y 0); lra.
Qed.

Lemma haversine_nonneg (a b : Pos) : 0 <= haversine a b.
Proof.
  unfold haversine; cbv zeta.
  pose proof (atan2_nonneg (sqrt (haversine_term a b))
                (sqrt (1 - haversine_term a b)) (sqrt_pos _) (sqrt_pos _)).
  nra.
Qed.

Lemma haversine_term_sym (a b : Pos) : haversine_term a b = haversine_term b a.
Proof.
  unfold haversine_term; cbv zeta.
  replace (radians (fst a - fst b) / 2) with (- (radians (fst b - fst a) / 2))
    by (unfold radians; field).
  replace (radians (snd a - snd b) / 2) with (- (radians (snd b - snd a) / 2))
    by (unfold radians; field).
  rewrite !sin_neg. ring.
Qed.

Lemma haversine_sym (a b : Pos) : haversine a b = haversine b a.
Proof. unfold haversine. now rewrite (haversine_term_sym a b). Qed.

Lemma haversine_term_zero (a b : Pos) :
  sin (radians (fst b - fst a) / 2) = 0 ->
  sin (radians (snd b - snd a) / 2) = 0 ->
  haversine a b = 0.
Proof.
  intros Hlat Hlon. unfold haversine, haversine_term; cbv zeta.
  rewrite Hlat, Hlon.
  replace (0 ^ 2 + cos (radians (fst a)) * cos (radians (fst b)) * 0 ^ 2)
    with 0 by ring.
  rewrite Rminus_0_r, sqrt_0, sqrt_1.
  unfold atan2. destruct (Rlt_dec 0 1); [| lra].
  replace (0 / 1) with 0 by field. rewrite atan_0. ring.
Qed.

Lemma haversine_refl (a : Pos) : haversine a a = 0.
Proof.
  apply haversine_term_zero.
  - replace (radians (fst a - fst a) / 2) with 0 by (unfold radians; field).
    apply sin_0.
  - replace (radians (snd a - snd a) / 2) with 0 by (unfold radians; field).
    apply sin_0.
Qed.

Lemma atan2_sin_cos (x : R) : 0 <= x <= PI / 2 -> atan2 (sin x) (cos x) = x.
Proof.
  intros [Hlo Hhi]. pose proof PI_RGT_0 as Hpi. unfold atan2.
  destruct Hhi as [Hlt | ->].
  - pose proof (cos_gt_0 x ltac:(lra) Hlt) as Hc.
    destruct (Rlt_dec 0 (cos x)); [| contradiction].
    fold (tan x). apply atan_tan. lra.
  - rewrite cos_PI2, sin_PI2.
    destruct (Rlt_dec 0 0); [lra |].
    destruct (Rlt_dec 0 1); [reflexivity | lra].
Qed.

(** Along the equator, longitudes at most half a turn apart are at the
    distance of their arc. *)
Lemma haversine_equator (lon1 lon2 : R) :
  0 <= lon2 - lon1 <= 180 ->
  haversine (0, lon1) (0, lon2) = 6371 * radians (lon2 - lon1).
Proof.
  intros [Hlo Hhi]. pose proof PI_RGT_0 as Hpi.
  unfold haversine, haversine_term; cbn [fst snd].
  set (x := radians (lon2 - lon1) / 2).
  assert (Hx : 0 <= x <= PI / 2) by (unfold x, radians; split; nra).
  replace (radians (0 - 0) / 2) with 0 by (unfold radians; field).
  replace (radians 0) with 0 by (unfold radians; ring).
  rewrite sin_0, cos_0.
  replace (0 ^ 2 + 1 * 1 * sin x ^ 2) with (Rsqr (sin x)) by (unfold Rsqr; ring).
  replace (1 - Rsqr (sin x)) with (Rsqr (cos x))
    by (pose proof (sin2_cos2 x); lra).
  rewrite sqrt_Rsqr by (apply sin_ge_0; lra).
  rewrite sqrt_Rsqr by (apply cos_ge_0; lra).
  rewrite atan2_sin_cos by exact Hx.
  unfold x. field.
Qed.

(** ** The builtins on total keys *)

Lemma nearest_in_In (cur : Pos) (pool : list Bin) (w : Bin) :
  nearest_in cur pool = Some w -> In w pool.
Proof.
  revert w. induction pool as [| x pool IH]; intros w; cbn [nearest_in].
  - discriminate.
  - destruct (nearest_in cur pool) as [w' |].
    + destruct (Rlt_dec _ _); intros [= <-]; [right; now apply IH | now left].
    + intros [= <-]. now left.
Qed.

Lemma nearest_in_some (cur : Pos) (x : Bin) (pool : list Bin) :
  exists w, nearest_in cur (x :: pool) = Some w.
Proof.
  cbn [nearest_in]. destruct (nearest_in cur pool) as [w' |]; [| now eexists].
  destruct (Rlt_dec _ _); now eexists.
Qed.

(** The left-to-right scan of [min] and the reference selection agree. *)
Lemma min_scan_nearest (cur : Pos) (rest : list Bin) (best : Bin) :
  min_scan (distance_to cur) best (haversine cur (bin_pos best)) rest
  = nearest_in cur (best :: rest).
Proof.
  revert best. induction rest as [| item rest IH]; intros best.
  - reflexivity.
  - cbn [min_scan]. rewrite distance_to_total. cbn [bind].
    destruct (Rlt_dec (haversine cur (bin_pos item)) (haversine cur (bin_pos best)))
      as [Hlt | Hge]; rewrite IH; clear IH; cbn [nearest_in];
      destruct (nearest_in cur rest) as [w' |];
      repeat (destruct (Rlt_dec _ _)); try reflexivity; lra.
Qed.

Lemma py_min_nearest (cur : Pos) (pool : list Bin) :
  py_min (distance_to cur) pool = nearest_in cur pool.
Proof.
  destruct pool as [| first rest]; [reflexivity |].
  unfold py_min. rewrite distance_to_total. cbn [bind].
  apply min_scan_nearest.
Qed.

Lemma list_remove_In (w : Bin) (pool : list Bin) :
  In w pool -> list_remove w pool = Some (remove_first w pool).
Proof.
  induction pool as [| x pool IH]; intros Hin; [destruct Hin |].
  cbn [list_remove remove_first].
  destruct (Bin_eq_dec x w) as [Heq | Hne]; [reflexivity |].
  destruct Hin as [Hx | Hin]; [contradiction |].
  now rewrite (IH Hin).
Qed.

Lemma remove_first_length (w : Bin) (pool : list Bin) :
  In w pool -> S (List.length (remove_first w pool)) = List.length pool.
Proof.
  induction pool as [| x pool IH]; intros Hin; [destruct Hin |].
  cbn [remove_first]. destruct (Bin_eq_dec x w) as [Heq | Hne]; [reflexivity |].
  destruct Hin as [Hx | Hin]; [contradiction |].
  cbn [List.length]. now rewrite (IH Hin).
Qed.

Lemma remove_first_perm (w : Bin) (pool : list Bin) :
  In w pool -> Permutation pool (w :: remove_first w pool).
Proof.
  induction pool as [| x pool IH]; intros Hin; [destruct Hin |].
  cbn [remove_first]. destruct (Bin_eq_dec x w) as [-> | Hne]; [reflexivity |].
  destruct Hin as [Hx | Hin]; [contradiction |].
  rewrite perm_swap. now apply perm_skip, IH.
Qed.

(** One pass of the loop on a non-empty pool. *)
Lemma tsp_body_step (s : tsp_state) (w : Bin) :
  nearest_in (current s) (remaining s) = Some w ->
  tsp_body s
  = Some {| remaining := remove_first w (remaining s);
            route := route s ++ [w];
            current := bin_pos w;
            total_distance :=
              total_distance s + haversine (current s) (bin_pos w) |}.
Proof.
  intros Hw. unfold tsp_body.
  rewrite py_min_nearest, Hw. cbn [bind].
  rewrite distance_to_total. cbn [bind].
  rewrite (list_remove_In _ _ (nearest_in_In _ _ _ Hw)). reflexivity.
Qed.

Lemma route_length_cons (cur : Pos) (w : Bin) (rest : list Bin) :
  route_length cur (w :: rest)
  = haversine cur (bin_pos w) + route_length (bin_pos w) rest.
Proof. destruct rest; reflexivity. Qed.

(** The loop invariant: from any state, enough passes end the loop with the
    greedy order appended to the route and its length added to the total. *)
Lemma tsp_while_greedy (fuel : nat) (s : tsp_state) :
  (List.length (remaining s) <= fuel)%nat ->
  exists s',
    tsp_while fuel s = Some s' /\
    remaining s' = [] /\
    route s' = route s
               ++ greedy_order (List.length (remaining s)) (current s) (remaining s) /\
    total_distance s' = total_distance s
               + route_length (current s)
                   (greedy_order (List.length (remaining s)) (current s) (remaining s)).
Proof.
  revert s. induction fuel as [| fuel IH]; intros s Hlen.
  - destruct s as [rem rt cur tot]; cbn [remaining] in *.
    destruct rem as [| x rem]; [| cbn in Hlen; lia].
    eexists; split; [reflexivity |]. cbn.
    rewrite app_nil_r, Rplus_0_r. auto.
  - destruct s as [rem rt cur tot]; cbn [remaining route current total_distance] in *.
    destruct rem as [| x rem].
    + eexists; split; [reflexivity |]. cbn.
      rewrite app_nil_r, Rplus_0_r. auto.
    + destruct (nearest_in_some cur x rem) as [w Hw].
      pose proof (nearest_in_In _ _ _ Hw) as Hin.
      assert (Hrm : List.length (remove_first w (x :: rem)) = List.length rem).
      { pose proof (remove_first_length _ _ Hin) as Hrm.
        change (List.length (x :: rem)) with (S (List.length rem)) in Hrm.
        now injection Hrm. }
      cbn [tsp_while remaining].
      rewrite (tsp_body_step (mkState (x :: rem) rt cur tot) w Hw). cbn [bind].
      cbn [remaining route current total_distance].
      match goal with |- context [tsp_while fuel ?st] =>
        destruct (IH st) as (s' & Hrun & Hrem & Hroute & Htot) end.
      { cbn [remaining]. rewrite Hrm. cbn [List.length] in Hlen. lia. }
      cbn [remaining route current total_distance] in Hroute, Htot.
      rewrite Hrm in Hroute, Htot.
      exists s'. split; [exact Hrun |]. split; [exact Hrem |].
      change (List.length (x :: rem)) with (S (List.length rem)).
      cbn [greedy_order]. rewrite Hw.
      split.
      * rewrite Hroute, <- app_assoc. reflexivity.
      * rewrite Htot, route_length_cons. ring.
Qed.

Lemma optimize_route_tsp_fuel_reference (fuel : nat) (start : Pos)
    (bins : list Bin) :
  (List.length bins <= fuel)%nat ->
  optimize_route_tsp_fuel fuel start bins = Some (reference_solve start bins).
Proof.
  intros Hlen. unfold optimize_route_tsp_fuel, reference_solve.
  destruct bins as [| x bins]; [reflexivity |].
  destruct (tsp_while_greedy fuel (mkState (x :: bins) [] start 0) Hlen)
    as (s' & Hrun & _ & Hroute & Htot).
  rewrite Hrun. cbn [bind]. cbn [remaining route current total_distance] in *.
  rewrite Hroute, Htot. cbn [app]. now rewrite Rplus_0_l.
Qed.

Lemma optimize_route_tsp_reference (start : Pos) (bins : list Bin) :
  optimize_route_tsp start bins = Some (reference_solve start bins).
Proof. apply optimize_route_tsp_fuel_reference. lia. Qed.

(** ** The visiting order *)

Lemma greedy_order_perm (n : nat) (cur : Pos) (pool : list Bin) :
  (List.length pool <= n)%nat -> Permutation pool (greedy_order n cur pool).
Proof.
  revert cur pool. induction n as [| n IH]; intros cur pool Hlen.
  - destruct pool; [constructor | cbn in Hlen; lia].
  - destruct pool as [| x pool]; [constructor |].
    cbn [greedy_order].
    destruct (nearest_in_some cur x pool) as [w Hw]. rewrite Hw.
    pose proof (nearest_in_In _ _ _ Hw) as Hin.
    rewrite (remove_first_perm w (x :: pool) Hin) at 1.
    apply perm_skip, IH.
    pose proof (remove_first_length _ _ Hin). cbn [List.length] in *. lia.
Qed.

Lemma nearest_in_none (cur : Pos) (pool : list Bin) :
  nearest_in cur pool = None -> pool = [].
Proof.
  destruct pool as [| x pool]; [reflexivity |].
  destruct (nearest_in_some cur x pool) as [w Hw]. congruence.
Qed.

(** Where the selected waypoint sits in the pool. *)
Lemma nearest_in_split (cur : Pos) (pool : list Bin) (w : Bin) :
  nearest_in cur pool = Some w ->
  exists before after,
    pool = before ++ w :: after /\
    Forall (fun x => haversine cur (bin_pos w) < haversine cur (bin_pos x)) before /\
    Forall (fun x => haversine cur (bin_pos w) <= haversine cur (bin_pos x)) after.
Proof.
  revert w. induction pool as [| x pool IH]; intros w; cbn [nearest_in].
  - discriminate.
  - destruct (nearest_in cur pool) as [w' |] eqn:Hw'.
    + destruct (IH w' eq_refl) as (before & after & -> & Hb & Ha).
      destruct (Rlt_dec _ _) as [Hlt | Hge]; intros [= <-].
      * exists (x :: before), after. repeat split; auto.
      * exists [], (before ++ w' :: after). repeat split; auto.
        apply Forall_app; split.
        -- eapply Forall_impl; [| exact Hb]. cbn. intros; lra.
        -- constructor; [lra |].
           eapply Forall_impl; [| exact Ha]. cbn. intros; lra.
    + apply nearest_in_none in Hw'. subst pool. intros [= <-].
      exists [], []. repeat split; constructor.
Qed.

Lemma remove_first_split (cur : Pos) (w : Bin) (before after : list Bin) :
  Forall (fun x => haversine cur (bin_pos w) < haversine cur (bin_pos x)) before ->
  remove_first w (before ++ w :: after) = before ++ after.
Proof.
  induction 1 as [| x before Hx _ IH]; cbn [app remove_first].
  - destruct (Bin_eq_dec w w); [reflexivity | contradiction].
  - destruct (Bin_eq_dec x w) as [-> | _]; [lra | now rewrite IH].
Qed.

Lemma greedy_order_first_nearest (n : nat) (cur : Pos) (pool : list Bin) :
  (List.length pool <= n)%nat ->
  first_nearest_order cur pool (greedy_order n cur pool).
Proof.
  revert cur pool. induction n as [| n IH]; intros cur pool Hlen.
  - destruct pool; [constructor | cbn in Hlen; lia].
  - destruct pool as [| x pool]; [constructor |].
    cbn [greedy_order].
    destruct (nearest_in_some cur x pool) as [w Hw]. rewrite Hw.
    destruct (nearest_in_split _ _ _ Hw) as (before & after & Hpool & Hb & Ha).
    rewrite Hpool, (remove_first_split cur w before after Hb).
    constructor; try assumption.
    apply IH.
    apply (f_equal (@List.length Bin)) in Hpool.
    rewrite length_app in *. cbn [List.length] in *. lia.
Qed.

(** The position of the selected waypoint is determined by the pool. *)
Lemma first_nearest_split_unique (cur : Pos) (w w' : Bin)
    (before after before' after' : list Bin) :
  before ++ w :: after = before' ++ w' :: after' ->
  Forall (fun x => haversine cur (bin_pos w) < haversine cur (bin_pos x)) before ->
  Forall (fun x => haversine cur (bin_pos w) <= haversine cur (bin_pos x)) after ->
  Forall (fun x => haversine cur (bin_pos w') < haversine cur (bin_pos x)) before' ->
  Forall (fun x => haversine cur (bin_pos w') <= haversine cur (bin_pos x)) after' ->
  before = before' /\ w = w' /\ after = after'.
Proof.
  revert before'. induction before as [| x before IH]; intros before' Heq Hb Ha Hb' Ha'.
  - destruct before' as [| y before']; cbn [app] in Heq.
    + injection Heq as -> ->. auto.
    + injection Heq as -> ->. exfalso.
      apply Forall_inv in Hb'.
      apply Forall_app in Ha. destruct Ha as [_ Ha]. apply Forall_inv in Ha. lra.
  - destruct before' as [| y before']; cbn [app] in Heq.
    + injection Heq as -> <-. exfalso.
      apply Forall_inv in Hb.
      apply Forall_app in Ha'. destruct Ha' as [_ Ha']. apply Forall_inv in Ha'. lra.
    + injection Heq as -> Heq.
      destruct (IH before' Heq) as (-> & -> & ->); auto.
      * now apply Forall_inv_tail in Hb.
      * now apply Forall_inv_tail in Hb'.
Qed.

(** The selection rule leaves no choice: an order is at most one. *)
Lemma first_nearest_order_unique (cur : Pos) (pool order1 order2 : list Bin) :
  first_nearest_order cur pool order1 ->
  first_nearest_order cur pool order2 ->
  order1 = order2.
Proof.
  intros H1. revert order2.
  induction H1 as [cur | cur before w after order Hb Ha _ IH]; intros order2 H2.
  - inversion H2 as [| ? before' w' after' ? ? ? ? Heq]; [reflexivity |].
    destruct before'; discriminate.
  - inversion H2 as [cur' Hnil | cur' before' w' after' order' Hb' Ha' Hrest Hcur Heq Hord].
    + destruct before; discriminate.
    + destruct (first_nearest_split_unique cur w' w before' after' before after Heq)
        as (-> & -> & ->); auto.
      f_equal. now apply IH.
Qed.

(** ** The comparison route *)

Lemma consecutive_sum_cons2 (x y : Bin) (rest : list Bin) :
  consecutive_sum (x :: y :: rest)
  = haversine (bin_pos x) (bin_pos y) + consecutive_sum (y :: rest).
Proof. reflexivity. Qed.

(** The indexed loop, started anywhere in the list, adds the consecutive
    distances of what is left. *)
Lemma random_distance_loop_sum (rest pre : list Bin) (acc : R) :
  random_distance_loop (pre ++ rest)
    (seq (List.length pre) (List.length rest - 1)) acc
  = Some (acc + consecutive_sum rest).
Proof.
  revert pre acc. induction rest as [| x rest IH]; intros pre acc.
  - cbn. now rewrite Rplus_0_r.
  - destruct rest as [| y rest].
    + cbn. now rewrite Rplus_0_r.
    + change (List.length (x :: y :: rest) - 1)%nat with (S (List.length rest)).
      cbn [seq random_distance_loop].
      rewrite nth_error_app2, Nat.sub_diag by lia. cbn [nth_error bind].
      rewrite nth_error_app2 by lia.
      replace (List.length pre + 1 - List.length pre)%nat with 1%nat by lia.
      cbn [nth_error bind].
      rewrite calculate_distance_total. cbn [bind].
      specialize (IH (pre ++ [x]) (acc + haversine (bin_pos x) (bin_pos y))).
      rewrite <- app_assoc, length_app in IH. cbn [app List.length] in IH.
      replace (List.length pre + 1)%nat with (S (List.length pre)) in IH by lia.
      replace (S (List.length rest) - 1)%nat with (List.length rest) in IH by lia.
      fold (bin_pos x) (bin_pos y).
      rewrite IH, consecutive_sum_cons2. f_equal. ring.
Qed.

Lemma random_route_distance_sum (random_bins : list Bin) :
  random_route_distance random_bins = Some (consecutive_sum random_bins).
Proof.
  unfold random_route_distance.
  destruct (1 <? List.length random_bins)%nat eqn:Hlen.
  - pose proof (random_distance_loop_sum random_bins [] 0) as Hsum.
    cbn [app List.length] in Hsum. now rewrite Hsum, Rplus_0_l.
  - apply Nat.ltb_ge in Hlen.
    destruct random_bins as [| x [| y rest]]; try reflexivity.
    cbn in Hlen; lia.
Qed.

(** In exact arithmetic the handler's computation always goes through. *)
Lemma evaluate_total (shuffle : list Bin -> list Bin) (truck_pos : Pos)
    (bins : list Bin) :
  exists ev,
    evaluate shuffle truck_pos bins = Some ev /\
    (optimal_route ev, optimal_distance ev) = reference_solve truck_pos bins /\
    random_bins ev = shuffle bins /\
    random_distance ev = consecutive_sum (shuffle bins) /\
    optimal_fuel ev = optimal_distance ev / 12 /\
    fuel_cost ev = optimal_fuel ev * 100 /\
    savings ev =
      (if Rlt_dec 0 (random_distance ev)
       then (random_distance ev / 12 - optimal_fuel ev) * 100 else 0) /\
    efficiency ev =
      (if Rlt_dec 0 (random_distance ev)
       then (random_distance ev - optimal_distance ev) / random_distance ev * 100
       else 0).
Proof.
  unfold evaluate.
  rewrite optimize_route_tsp_reference. cbn [bind].
  rewrite random_route_distance_sum. cbn [bind].
  eexists. split; [reflexivity |].
  cbn [optimal_route optimal_distance random_bins random_distance
       optimal_fuel fuel_cost savings efficiency].
  repeat split.
Qed.

(** ** Rounding *)

Lemma round_half_even_near (x : R) :
  IZR (round_half_even x) - 1 / 2 <= x <= IZR (round_half_even x) + 1 / 2.
Proof.
  unfold round_half_even; cbv zeta.
  pose proof (Zfloor_bound x) as [Hlo Hhi].
  destruct (Rlt_dec (x - IZR (Zfloor x)) (1 / 2)) as [H1 | H1]; [lra |].
  destruct (Rlt_dec (1 / 2) (x - IZR (Zfloor x))) as [H2 | H2];
    [rewrite plus_IZR; lra |].
  destruct (Z.even (Zfloor x)); [lra | rewrite plus_IZR; lra].
Qed.

Lemma round_half_even_nonpos (x : R) : x <= 0 -> (round_half_even x <= 0)%Z.
Proof.
  intros Hx. pose proof (round_half_even_near x) as [Hlo _].
  assert (H : IZR (round_half_even x) < 1) by lra.
  apply lt_IZR in H. lia.
Qed.

Lemma round_half_even_small (x : R) : -1 / 2 < x < 1 / 2 -> round_half_even x = 0%Z.
Proof.
  intros [Hlo Hhi]. pose proof (round_half_even_near x) as [H1 H2].
  assert (Ha : IZR (round_half_even x) < 1) by lra.
  assert (Hb : -1 < IZR (round_half_even x)) by lra.
  apply lt_IZR in Ha, Hb. lia.
Qed.

Lemma round_half_even_0 : round_half_even 0 = 0%Z.
Proof. apply round_half_even_small. lra. Qed.

Lemma py_round_ndigits_two_decimals (x : R) : two_decimals (py_round_ndigits x 2).
Proof.
  unfold two_decimals, py_round_ndigits. eexists. f_equal. simpl. ring.
Qed.

Lemma py_round_ndigits_near (x : R) :
  Rabs (py_round_ndigits x 2 - x) <= 5 / 1000.
Proof.
  unfold py_round_ndigits.
  pose proof (round_half_even_near (x * 10 ^ 2)) as [Hlo Hhi].
  replace (10 ^ 2) with 100 in * by (simpl; ring).
  apply Rabs_le. split; lra.
Qed.

(** ** The route over the computed distances *)

Lemma first_nearest_order_route (cur : Pos) (pool order : list Bin) :
  first_nearest_order cur pool order -> first_nearest_route cur pool order.
Proof.
  induction 1 as [cur | cur before w after order Hb Ha _ IH]; [constructor |].
  apply first_nearest_pick with (k := haversine cur (bin_pos w)).
  - apply distance_to_total.
  - eapply Forall_impl; [| exact Hb]. cbn. intros x Hx.
    eexists. split; [apply distance_to_total | exact Hx].
  - eapply Forall_impl; [| exact Ha]. cbn. intros x Hx.
    eexists. split; [apply distance_to_total | lra].
  - exact IH.
Qed.

Lemma first_nearest_route_order (cur : Pos) (pool order : list Bin) :
  first_nearest_route cur pool order -> first_nearest_order cur pool order.
Proof.
  induction 1 as [cur | cur before w after k order Hk Hb Ha _ IH]; [constructor |].
  rewrite distance_to_total in Hk. injection Hk as <-.
  constructor; [| | exact IH].
  - eapply Forall_impl; [| exact Hb]. cbn. intros x (kx & Hkx & Hlt).
    rewrite distance_to_total in Hkx. injection Hkx as <-. exact Hlt.
  - eapply Forall_impl; [| exact Ha]. cbn. intros x (kx & Hkx & Hge).
    rewrite distance_to_total in Hkx. injection Hkx as <-. lra.
Qed.


Lemma fold_left_Rplus (legs : list R) (a : R) :
  fold_left Rplus legs a = a + fold_left Rplus legs 0.
Proof.
  revert a. induction legs as [| k legs IH]; intros a; cbn [fold_left].
  - ring.
  - rewrite (IH (a + k)), (IH (0 + k)). ring.
Qed.

(** The legs of a walk are computed, and their running total is the length
    of the walk. *)
Lemma leg_distances_total (order : list Bin) (cur : Pos) :
  exists legs,
    leg_distances cur order = Some legs
    /\ running_total legs = route_length cur order.
Proof.
  revert cur. induction order as [| w rest IH]; intros cur.
  - exists []. split; reflexivity.
  - destruct (IH (bin_pos w)) as (legs & Hlegs & Htotal).
    exists (haversine cur (bin_pos w) :: legs). split.
    + cbn [leg_distances]. rewrite distance_to_total, Hlegs. reflexivity.
    + unfold running_total in *. cbn [fold_left].
      rewrite fold_left_Rplus, Htotal, route_length_cons. ring.
Qed.

Lemma consecutive_sum_route_length (w : Bin) (rest : list Bin) :
  consecutive_sum (w :: rest) = route_length (bin_pos w) rest.
Proof. destruct rest; reflexivity. Qed.

Lemma consecutive_distances_total (order : list Bin) :
  exists legs,
    consecutive_distances order = Some legs
    /\ running_total legs = consecutive_sum order.
Proof.
  destruct order as [| w rest].
  - exists []. split; reflexivity.
  - rewrite consecutive_sum_route_length. apply leg_distances_total.
Qed.

(** More passes than needed change nothing. *)
Lemma tsp_while_more_fuel (fuel : nat) (s s' : tsp_state) :
  tsp_while fuel s = Some s' ->
  forall fuel', (fuel <= fuel')%nat -> tsp_while fuel' s = Some s'.
Proof.
  revert s. induction fuel as [| fuel IH]; intros s Hrun fuel' Hle.
  - destruct fuel'; cbn [tsp_while] in *;
      destruct (remaining s); congruence.
  - destruct fuel' as [| fuel']; [lia |].
    cbn [tsp_while] in *. destruct (remaining s); [exact Hrun |].
    destruct (tsp_body s) as [s1 |]; cbn [bind] in *; [| discriminate].
    apply IH; [exact Hrun | lia].
Qed.

Lemma optimize_route_tsp_fuel_result (fuel : nat) (start : Pos)
    (bins : list Bin) (result : list Bin * R) :
  optimize_route_tsp_fuel fuel start bins = Some result ->
  result = reference_solve start bins.
Proof.
  intros Hrun.
  assert (Hbig : optimize_route_tsp_fuel (Nat.max fuel (List.length bins)) start bins
                 = Some result).
  { unfold optimize_route_tsp_fuel in *. destruct bins as [| b bins]; [exact Hrun |].
    destruct (tsp_while fuel _) as [s |] eqn:Hs; cbn [bind] in Hrun;
      [| discriminate].
    rewrite (tsp_while_more_fuel _ _ _ Hs) by lia. exact Hrun. }
  rewrite optimize_route_tsp_fuel_reference in Hbig by lia. congruence.
Qed.

Lemma optimize_route_tsp_result (start : Pos) (bins order : list Bin) (total : R) :
  optimize_route_tsp start bins = Some (order, total) ->
  order = greedy_order (List.length bins) start bins
  /\ total = route_length start order.
Proof.
  rewrite optimize_route_tsp_reference. unfold reference_solve.
  intros [= <- <-]. split; reflexivity.
Qed.

(** The exact-arithmetic value of the model at an input, for use at
    concrete inputs. *)
Lemma optimize_route_tsp_exact (start : Pos) (bins : list Bin) :
  optimize_route_tsp start bins
  = Some (fst (reference_solve start bins), snd (reference_solve start bins)).
Proof.
  rewrite optimize_route_tsp_reference. now destruct (reference_solve start bins).
Qed.

(** What a returned evaluation was computed from. *)
Lemma evaluate_inv (shuffle : list Bin -> list Bin) (truck_pos : Pos)
    (bins : list Bin) (ev : locals) :
  evaluate shuffle truck_pos bins = Some ev ->
  optimize_route_tsp truck_pos bins = Some (optimal_route ev, optimal_distance ev)
  /\ random_bins ev = shuffle bins
  /\ random_route_distance (shuffle bins) = Some (random_distance ev)
  /\ optimal_fuel ev = optimal_distance ev / 12
  /\ fuel_cost ev = optimal_fuel ev * 100
  /\ savings ev =
       (if Rlt_dec 0 (random_distance ev)
        then (random_distance ev / 12 - optimal_fuel ev) * 100 else 0)
  /\ efficiency ev =
       (if Rlt_dec 0 (random_distance ev)
        then (random_distance ev - optimal_distance ev) / random_distance ev * 100
        else 0).
Proof.
  unfold evaluate.
  destruct (optimize_route_tsp truck_pos bins) as [[route_ od] |]; cbn [bind];
    [| discriminate].
  destruct (random_route_distance (shuffle bins)) as [rd |]; cbn [bind];
    [| discriminate].
  intros [= <-]. cbn. repeat split.
Qed.

(** What a report was computed from. *)
Lemma optimize_route_report_ev (shuffle : list Bin -> list Bin) (truck : Truck)
    (dustbins : list (string * Dustbin)) (r : report) (st : Z) :
  optimize_route shuffle truck dustbins = (ReportBody r, st) ->
  exists tlat tlon ev,
    truck_lat truck = Some tlat /\ truck_lon truck = Some tlon
    /\ evaluate shuffle (tlat, tlon) (bins_to_collect dustbins) = Some ev
    /\ r = report_of ev.
Proof.
  unfold optimize_route.
  destruct (truck_lat truck) as [tlat |]; [| discriminate].
  destruct (truck_lon truck) as [tlon |]; [| discriminate].
  destruct (bins_to_collect dustbins) as [| b bins] eqn:Hb; [discriminate |].
  destruct (evaluate shuffle (tlat, tlon) (b :: bins)) as [ev |] eqn:Hev;
    [| discriminate].
  intros [= <- _]. now exists tlat, tlon, ev.
Qed.

(** ** The distance against the arc between the points *)

Lemma asin_nonneg (y : R) : 0 <= y <= 1 -> 0 <= asin y <= PI / 2.
Proof.
  intros [H0 H1]. pose proof (asin_bound y) as [Hlo Hhi]. split; [| exact Hhi].
  destruct (Rle_dec 0 (asin y)) as [Hle | Hn]; [exact Hle | exfalso].
  assert (Hneg : sin (asin y) < 0).
  { apply sin_lt_0_var; pose proof PI_RGT_0; lra. }
  rewrite sin_asin in Hneg by lra. lra.
Qed.

(** On the unit quarter circle the angle is at least its sine. *)
Lemma atan2_ge_sine (h : R) :
  0 <= h <= 1 -> sqrt h <= atan2 (sqrt h) (sqrt (1 - h)).
Proof.
  intros [H0 H1].
  assert (Hy : 0 <= sqrt h <= 1).
  { split; [apply sqrt_pos |]. rewrite <- sqrt_1. apply sqrt_le_1; lra. }
  pose proof (asin_nonneg _ Hy) as Hth.
  assert (Hcos : cos (asin (sqrt h)) = sqrt (1 - h)).
  { rewrite cos_asin by lra. unfold Rsqr. now rewrite sqrt_def. }
  rewrite <- Hcos. rewrite <- (sin_asin (sqrt h)) at 2 by lra.
  rewrite atan2_sin_cos by exact Hth.
  destruct (proj1 Hth) as [Hpos | Hz].
  - rewrite <- (sin_asin (sqrt h)) at 1 by lra. left. now apply sin_lt_x.
  - rewrite <- (sin_asin (sqrt h)) at 1 by lra. rewrite <- Hz, sin_0. lra.
Qed.

Lemma haversine_chord (a b : Pos) :
  2 * 6371 * sqrt (haversine_term a b) <= haversine a b.
Proof.
  unfold haversine; cbv zeta.
  pose proof (atan2_ge_sine _ (haversine_term_bounds a b)). lra.
Qed.

Lemma sin_third (x : R) : 0 <= x <= PI / 2 -> x / 3 <= sin x.
Proof.
  intros [H0 H1]. pose proof PI_4 as Hpi. 
  destruct (sin_bound x 0 H0 ltac:(lra)) as [Hlo _].
  unfold sin_approx, sin_term in Hlo. cbn in Hlo.
  assert (Hx2 : x * x <= 4) by nra.
  nra.
Qed.

Lemma sin_third_abs (x : R) : Rabs x <= PI / 2 -> Rabs x / 3 <= Rabs (sin x).
Proof.
  intros Hx. unfold Rabs in *. destruct (Rcase_abs x) as [Hneg | Hpos].
  - pose proof (sin_third (- x) ltac:(lra)) as H. rewrite sin_neg in H.
    destruct (Rcase_abs (sin x)); lra.
  - pose proof (sin_third x ltac:(lra)) as H.
    destruct (Rcase_abs (sin x)); lra.
Qed.

Lemma sin_third_turn (x : R) :
  Rabs x <= PI -> Rmin (Rabs x) (PI - Rabs x) / 3 <= Rabs (sin x).
Proof.
  intros Hx. pose proof PI_RGT_0 as Hpi. pose proof (Rabs_pos x) as Hx0.
  assert (Habs : Rabs (sin x) = sin (Rabs x)).
  { unfold Rabs at 2. destruct (Rcase_abs x) as [Hneg | Hpos].
    - rewrite sin_neg, <- Rabs_Ropp. apply Rabs_pos_eq.
      rewrite <- sin_neg. apply sin_ge_0; unfold Rabs in Hx;
        destruct (Rcase_abs x); lra.
    - apply Rabs_pos_eq. apply sin_ge_0; unfold Rabs in Hx;
        destruct (Rcase_abs x); lra. }
  rewrite Habs. unfold Rmin. destruct (Rle_dec _ _) as [Hle | Hgt].
  - apply sin_third. lra.
  - rewrite <- sin_PI_x. apply sin_third. lra.
Qed.

Lemma cos_radians_nonneg (lat : R) : -90 <= lat <= 90 -> 0 <= cos (radians lat).
Proof.
  intros [Hlo Hhi]. pose proof PI_RGT_0 as Hpi.
  apply cos_ge_0; unfold radians; nra.
Qed.

Lemma Rabs_radians_half (x : R) : Rabs (radians x / 2) = radians (Rabs x) / 2.
Proof.
  pose proof PI_RGT_0 as Hpi. unfold radians.
  replace (x * (PI / 180) / 2) with (x * (PI / 360)) by field.
  rewrite Rabs_mult, (Rabs_pos_eq (PI / 360)) by lra. field.
Qed.

(** The distance bounds the difference of the latitudes. *)
Lemma haversine_lat_arc (a b : Pos) :
  -90 <= fst a <= 90 -> -90 <= fst b <= 90 ->
  6371 * Rabs (radians (fst b - fst a)) <= 3 * haversine a b.
Proof.
  intros Ha Hb. pose proof PI_RGT_0 as Hpi.
  pose proof (haversine_chord a b) as Hchord.
  pose proof (cos_radians_nonneg _ Ha) as Hc1.
  pose proof (cos_radians_nonneg _ Hb) as Hc2.
  set (x := radians (fst b - fst a) / 2).
  assert (Hsq : Rabs (sin x) <= sqrt (haversine_term a b)).
  { rewrite <- sqrt_Rsqr_abs. apply sqrt_le_1.
    - apply Rle_0_sqr.
    - apply haversine_term_bounds.
    - unfold haversine_term; cbv zeta. fold x. rewrite Rsqr_pow2.
      pose proof (pow2_ge_0 (sin (radians (snd b - snd a) / 2))).
      pose proof (Rmult_le_pos _ _ Hc1 Hc2). nra. }
  assert (Hx : Rabs x <= PI / 2).
  { unfold x. rewrite Rabs_radians_half. unfold radians.
    assert (Rabs (fst b - fst a) <= 180) by (apply Rabs_le; lra). nra. }
  pose proof (sin_third_abs x Hx) as Hthird.
  replace (Rabs (radians (fst b - fst a))) with (2 * Rabs x).
  - lra.
  - unfold x. rewrite Rabs_radians_half. unfold radians.
    rewrite Rabs_mult, (Rabs_pos_eq (PI / 180)) by lra. field.
Qed.

(** The distance bounds the difference of the longitudes, up to a full
    turn and scaled by the cosines of the latitudes. *)
Lemma haversine_lon_arc (a b : Pos) :
  -90 <= fst a <= 90 -> -90 <= fst b <= 90 ->
  Rabs (snd b - snd a) <= 360 ->
  6371 * sqrt (cos (radians (fst a)) * cos (radians (fst b)))
  * radians (Rmin (Rabs (snd b - snd a)) (360 - Rabs (snd b - snd a)))
  <= 3 * haversine a b.
Proof.
  intros Ha Hb Hlon. pose proof PI_RGT_0 as Hpi.
  pose proof (haversine_chord a b) as Hchord.
  pose proof (cos_radians_nonneg _ Ha) as Hc1.
  pose proof (cos_radians_nonneg _ Hb) as Hc2.
  pose proof (Rmult_le_pos _ _ Hc1 Hc2) as Hcc.
  set (cc := cos (radians (fst a)) * cos (radians (fst b))) in *.
  set (x := radians (snd b - snd a) / 2).
  assert (Hsq : sqrt cc * Rabs (sin x) <= sqrt (haversine_term a b)).
  { rewrite <- sqrt_Rsqr_abs, <- sqrt_mult by (auto using Rle_0_sqr).
    apply sqrt_le_1.
    - apply Rmult_le_pos; [exact Hcc | apply Rle_0_sqr].
    - apply haversine_term_bounds.
    - unfold haversine_term; cbv zeta. fold cc. fold x. rewrite Rsqr_pow2.
      pose proof (pow2_ge_0 (sin (radians (fst b - fst a) / 2))). lra. }
  assert (Hx : Rabs x <= PI).
  { unfold x. rewrite Rabs_radians_half. unfold radians. nra. }
  pose proof (sin_third_turn x Hx) as Hthird.
  pose proof (sqrt_pos cc) as Hs.
  assert (Hmin : radians (Rmin (Rabs (snd b - snd a)) (360 - Rabs (snd b - snd a)))
                 = 2 * Rmin (Rabs x) (PI - Rabs x)).
  { unfold x. rewrite Rabs_radians_half. unfold Rmin, radians.
    pose proof (Rabs_pos (snd b - snd a)).
    destruct (Rle_dec _ _), (Rle_dec _ _); try field; exfalso; nra. }
  rewrite Hmin.
  set (m := Rmin (Rabs x) (PI - Rabs x)) in *.
  assert (sqrt cc * (m / 3) <= sqrt cc * Rabs (sin x))
    by (apply Rmult_le_compat_l; lra).
  nra.
Qed.

(** * The claims *)



(** C2. For every start position and every finite sequence of waypoints,
    every order the solver returns is a permutation of the input sequence:
    no waypoint is dropped, duplicated or invented. *)
Theorem optimize_route_tsp_permutation :
  forall (start : Pos) (waypoints order : list Bin) (total : R),
    optimize_route_tsp start waypoints = Some (order, total) ->
    Permutation waypoints order.
Proof.
  intros start waypoints order total Hrun.
  apply optimize_route_tsp_result in Hrun. destruct Hrun as [-> _].
  apply greedy_order_perm. lia.
Qed.

Lemma optimize_route_tsp_permutation_witness :
  exists order total,
    optimize_route_tsp (0, 0)
      [equator_bin "2" (10025 / 100); equator_bin "1" (25 / 100)]
    = Some (order, total)
    /\ Permutation
         [equator_bin "2" (10025 / 100); equator_bin "1" (25 / 100)] order.
Proof.
  eexists. eexists. split.
  - apply optimize_route_tsp_exact.
  - eapply optimize_route_tsp_permutation. apply optimize_route_tsp_exact.
Defined.

(** C9. The solver is deterministic.  The order it returns selects, at
    every step, the first waypoint of the remaining pool, in its iteration
    order, whose computed distance from the current position is minimal
    (strictly less than the computed distance of every waypoint before it,
    undercut by none after it); there is only one such order; and every run
    that returns, whatever its number of loop passes, returns the same
    order and the same total. *)
Theorem optimize_route_tsp_deterministic :
  forall (start : Pos) (waypoints order : list Bin) (total : R),
    optimize_route_tsp start waypoints = Some (order, total) ->
    first_nearest_route start waypoints order
    /\ (forall order', first_nearest_route start waypoints order' ->
          order' = order)
    /\ (forall fuel result,
          optimize_route_tsp_fuel fuel start waypoints = Some result ->
          result = (order, total)).
Proof.
  intros start waypoints order total Hrun.
  assert (Hfirst : first_nearest_order start waypoints order).
  { apply optimize_route_tsp_result in Hrun. destruct Hrun as [-> _].
    apply greedy_order_first_nearest. lia. }
  split; [| split].
  - apply first_nearest_order_route, Hfirst.
  - intros order' Horder'.
    eapply first_nearest_order_unique; [| exact Hfirst].
    apply first_nearest_route_order, Horder'.
  - intros fuel result Hfuel.
    apply optimize_route_tsp_fuel_result in Hfuel.
    rewrite optimize_route_tsp_reference in Hrun. congruence.
Qed.

Lemma optimize_route_tsp_deterministic_witness :
  exists order total,
    optimize_route_tsp (0, 0)
      [equator_bin "2" (10025 / 100); equator_bin "1" (25 / 100)]
    = Some (order, total)
    /\ first_nearest_route (0, 0)
         [equator_bin "2" (10025 / 100); equator_bin "1" (25 / 100)] order.
Proof.
  eexists. eexists. split.
  - apply optimize_route_tsp_exact.
  - eapply optimize_route_tsp_deterministic. apply optimize_route_tsp_exact.
Defined.

(** C3. For every request in which the truck position is unset (latitude
    or longitude is [None]) the handler answers with the descriptive error
    and status 400: it computes no route, whatever the bins are, and sends
    neither a report nor the empty-route message. *)
Theorem optimize_route_position_unset :
  forall (shuffle : list Bin -> list Bin) (truck : Truck)
         (dustbins : list (string * Dustbin)),
    truck_lat truck = None \/ truck_lon truck = None ->
    optimize_route shuffle truck dustbins = (ErrorBody gps_error, 400%Z)
    /\ (forall r, fst (optimize_route shuffle truck dustbins) <> ReportBody r)
    /\ (forall m d rt,
          fst (optimize_route shuffle truck dustbins) <> MessageBody m d rt).
Proof.
  intros shuffle truck dustbins Hunset.
  assert (Herr : optimize_route shuffle truck dustbins
                 = (ErrorBody gps_error, 400%Z)).
  { unfold optimize_route.
    destruct (truck_lat truck) as [tlat |], (truck_lon truck) as [tlon |];
      try reflexivity.
    destruct Hunset; discriminate. }
  rewrite Herr. repeat split; intros; discriminate.
Qed.

Lemma optimize_route_position_unset_witness :
  optimize_route keep_order truck_initial dustbins_initial
  = (ErrorBody gps_error, 400%Z).
Proof.
  exact (proj1 (optimize_route_position_unset keep_order truck_initial
                  dustbins_initial (or_introl eq_refl))).
Defined.

Lemma is_shuffle_keep_order : is_shuffle keep_order.
Proof. intros l. apply Permutation_refl. Defined.

Lemma is_shuffle_length (shuffle : list Bin -> list Bin) (l : list Bin) :
  is_shuffle shuffle -> List.length (shuffle l) = List.length l.
Proof. intros Hs. symmetry. apply Permutation_length, Hs. Qed.

(** C4. In every evaluation the handler completes, the baseline distance is
    computed over the permutation the shuffle draws, as the consecutive
    pairwise distances between its waypoints only, added up in order from
    0: the start position has no part in it (an evaluation from another
    start position, the shuffle drawing the same permutation, has the same
    baseline); and whenever the waypoint sequence has fewer than 2 elements
    the baseline distance is 0. *)
Theorem random_distance_baseline :
  forall shuffle : list Bin -> list Bin, is_shuffle shuffle ->
  forall (truck_pos : Pos) (bins : list Bin) (ev : locals),
    evaluate shuffle truck_pos bins = Some ev ->
    random_bins ev = shuffle bins
    /\ Permutation bins (random_bins ev)
    /\ (exists legs,
          consecutive_distances (random_bins ev) = Some legs
          /\ random_distance ev = running_total legs)
    /\ (forall (truck_pos' : Pos) (ev' : locals),
          evaluate shuffle truck_pos' bins = Some ev' ->
          random_distance ev' = random_distance ev)
    /\ ((List.length bins < 2)%nat -> random_distance ev = 0).
Proof.
  intros shuffle Hshuffle truck_pos bins ev Hev.
  destruct (evaluate_inv _ _ _ _ Hev) as (_ & Hbins & Hdist & _).
  split; [exact Hbins |]. split; [| split; [| split]].
  - rewrite Hbins. apply Hshuffle.
  - destruct (consecutive_distances_total (random_bins ev))
      as (legs & Hlegs & Hsum).
    exists legs. split; [exact Hlegs |].
    rewrite random_route_distance_sum, <- Hbins in Hdist. congruence.
  - intros truck_pos' ev' Hev'.
    destruct (evaluate_inv _ _ _ _ Hev') as (_ & _ & Hdist' & _).
    congruence.
  - intros Hlen. unfold random_route_distance in Hdist.
    rewrite is_shuffle_length in Hdist by exact Hshuffle.
    destruct (1 <? List.length bins)%nat eqn:Hlt.
    + apply Nat.ltb_lt in Hlt. lia.
    + congruence.
Qed.

Lemma random_distance_baseline_witness :
  exists ev,
    evaluate keep_order (0, 0)
      [equator_bin "1" (25 / 100); equator_bin "2" (10025 / 100)] = Some ev
    /\ random_bins ev
       = [equator_bin "1" (25 / 100); equator_bin "2" (10025 / 100)]
    /\ (exists legs,
          consecutive_distances (random_bins ev) = Some legs
          /\ random_distance ev = running_total legs)
    /\ 0 < random_distance ev.
Proof.
  destruct (evaluate_total keep_order (0, 0)
              [equator_bin "1" (25 / 100); equator_bin "2" (10025 / 100)])
    as (ev & Hev & _).
  destruct (random_distance_baseline keep_order is_shuffle_keep_order _ _ _ Hev)
    as (Hbins & _ & Hlegs & _).
  exists ev. split; [exact Hev |]. split; [exact Hbins |].
  split; [exact Hlegs |].
  destruct Hlegs as (legs & Hlegs & ->). rewrite Hbins in Hlegs.
  unfold keep_order, consecutive_distances in Hlegs.
  cbn [leg_distances] in Hlegs.
  rewrite distance_to_total in Hlegs. cbn [bind] in Hlegs.
  injection Hlegs as <-.
  unfold running_total, equator_bin, bin_pos; cbn [fold_left bin_lat bin_lon].
  rewrite haversine_equator by lra.
  pose proof PI_RGT_0. unfold radians. nra.
Defined.

(** C5. In every evaluation the handler completes, the optimal distance is
    the solver's total and the baseline distance is the baseline sum over
    the shuffled bins, and: optimalFuel = optimalDistance / 12,
    cost = optimalFuel * 100, savings = (baselineDistance / 12 -
    optimalFuel) * 100 and efficiencyGainPercent = (baselineDistance -
    optimalDistance) / baselineDistance * 100 when baselineDistance > 0,
    and both are 0 otherwise; a single-waypoint input has baseline 0 and
    yields savings 0 and efficiency gain 0, in the locals and in the
    report. *)
Theorem derived_metrics :
  forall (shuffle : list Bin -> list Bin) (truck_pos : Pos) (bins : list Bin)
         (ev : locals),
    evaluate shuffle truck_pos bins = Some ev ->
    optimize_route_tsp truck_pos bins
    = Some (optimal_route ev, optimal_distance ev)
    /\ random_route_distance (shuffle bins) = Some (random_distance ev)
    /\ optimal_fuel ev = optimal_distance ev / 12
    /\ fuel_cost ev = optimal_fuel ev * 100
    /\ (0 < random_distance ev ->
          savings ev = (random_distance ev / 12 - optimal_fuel ev) * 100
          /\ efficiency ev
             = (random_distance ev - optimal_distance ev)
               / random_distance ev * 100)
    /\ (~ 0 < random_distance ev -> savings ev = 0 /\ efficiency ev = 0)
    /\ (is_shuffle shuffle -> List.length bins = 1%nat ->
          random_distance ev = 0
          /\ savings ev = 0 /\ efficiency ev = 0
          /\ r_savings (report_of ev) = 0%Z
          /\ r_efficiency_gain (report_of ev) = 0%Z).
Proof.
  intros shuffle truck_pos bins ev Hev.
  destruct (evaluate_inv _ _ _ _ Hev)
    as (Hsolve & _ & Hdist & Hfuel & Hcost & Hsav & Heff).
  split; [exact Hsolve |]. split; [exact Hdist |].
  split; [exact Hfuel |]. split; [exact Hcost |].
  assert (Hpos : 0 < random_distance ev ->
                 savings ev = (random_distance ev / 12 - optimal_fuel ev) * 100
                 /\ efficiency ev
                    = (random_distance ev - optimal_distance ev)
                      / random_distance ev * 100).
  { intros Hrd. rewrite Hsav, Heff.
    destruct (Rlt_dec 0 (random_distance ev)); [split; reflexivity | contradiction]. }
  assert (Hzero : ~ 0 < random_distance ev -> savings ev = 0 /\ efficiency ev = 0).
  { intros Hrd. rewrite Hsav, Heff.
    destruct (Rlt_dec 0 (random_distance ev)); [contradiction | split; reflexivity]. }
  split; [exact Hpos |]. split; [exact Hzero |].
  intros Hshuffle Hone.
  assert (Hrd : random_distance ev = 0).
  { unfold random_route_distance in Hdist.
    rewrite is_shuffle_length, Hone in Hdist by exact Hshuffle.
    cbn in Hdist. congruence. }
  destruct Hzero as [Hs He]; [lra |].
  split; [exact Hrd |].
  unfold report_of, py_round; cbn [r_savings r_efficiency_gain].
  rewrite Hs, He, round_half_even_0. auto.
Qed.

Lemma derived_metrics_witness :
  exists ev,
    evaluate keep_order (0, 0)
      [equator_bin "1" (25 / 100); equator_bin "2" (10025 / 100)] = Some ev
    /\ 0 < random_distance ev
    /\ optimal_fuel ev = optimal_distance ev / 12
    /\ savings ev = (random_distance ev / 12 - optimal_fuel ev) * 100
    /\ efficiency ev
       = (random_distance ev - optimal_distance ev) / random_distance ev * 100.
Proof.
  destruct (evaluate_total keep_order (0, 0)
              [equator_bin "1" (25 / 100); equator_bin "2" (10025 / 100)])
    as (ev & Hev & _).
  destruct (derived_metrics keep_order _ _ _ Hev)
    as (_ & Hdist & Hfuel & _ & Hpos & _).
  assert (Hrd : 0 < random_distance ev).
  { rewrite random_route_distance_sum in Hdist. injection Hdist as <-.
    unfold keep_order, equator_bin, bin_pos; cbn [consecutive_sum bin_lat bin_lon].
    rewrite haversine_equator by lra.
    pose proof PI_RGT_0. unfold radians. nra. }
  destruct (Hpos Hrd) as [Hs He].
  exists ev. auto.
Defined.

(** ** The report *)

Lemma optimize_route_report (shuffle : list Bin -> list Bin) (truck : Truck)
    (dustbins : list (string * Dustbin)) (tlat tlon : R) :
  truck_lat truck = Some tlat -> truck_lon truck = Some tlon ->
  bins_to_collect dustbins <> [] ->
  exists ev,
    evaluate shuffle (tlat, tlon) (bins_to_collect dustbins) = Some ev
    /\ optimize_route shuffle truck dustbins = (ReportBody (report_of ev), 200%Z).
Proof.
  intros Hlat Hlon Hbins.
  destruct (evaluate_total shuffle (tlat, tlon) (bins_to_collect dustbins))
    as (ev & Hev & _).
  exists ev. split; [exact Hev |].
  unfold optimize_route. rewrite Hlat, Hlon.
  destruct (bins_to_collect dustbins) as [| b bins] eqn:Hb; [contradiction |].
  now rewrite Hev.
Qed.

Lemma bins_to_collect_one :
  bins_to_collect one_dustbin = [equator_bin "1" (5 / 100)].
Proof.
  unfold bins_to_collect, one_dustbin, equator_dustbin, equator_bin.
  cbn [filter map fst snd fill name lat lon].
  destruct (Rle_dec 50 80) as [_ | Hn]; [reflexivity | exfalso; lra].
Qed.

Lemma bins_to_collect_two :
  bins_to_collect two_dustbins
  = [equator_bin "1" (25 / 100); equator_bin "2" (10025 / 100)].
Proof.
  unfold bins_to_collect, two_dustbins, equator_dustbin, equator_bin.
  cbn [filter map fst snd fill name lat lon].
  destruct (Rle_dec 50 80) as [_ | Hn]; [reflexivity | exfalso; lra].
Qed.

Lemma reference_solve_single (start : Pos) (b : Bin) :
  reference_solve start [b] = ([b], haversine start (bin_pos b)).
Proof.
  unfold reference_solve. cbn. f_equal. ring.
Qed.

Lemma PI_gt_2 : 2 < PI.
Proof. pose proof PI2_1. lra. Qed.

(** C7 fails as stated: on the equator the longitudes -180 and 180 are at
    a distance that is zero within floating tolerance, and the two points
    are a full turn of longitude apart, not equal within that tolerance. *)
Lemma distance_zero_unequal_points :
  exists d,
    calculate_distance 0 (-180) 0 180 = Some d
    /\ Rabs d <= floating_tolerance
    /\ floating_tolerance < Rabs (180 - -180)
    /\ ((0, -180) : Pos) <> (0, 180).
Proof.
  exists 0. split; [| split; [| split]].
  - rewrite calculate_distance_total. f_equal.
    apply haversine_term_zero; cbn [fst snd].
    + replace (radians (0 - 0) / 2) with 0 by (unfold radians; field).
      apply sin_0.
    + replace (radians (180 - -180) / 2) with PI by (unfold radians; field).
      apply sin_PI.
  - rewrite Rabs_R0. unfold floating_tolerance. simpl pow. lra.
  - replace (180 - -180) with 360 by lra.
    rewrite Rabs_pos_eq by lra. unfold floating_tolerance. simpl pow. lra.
  - intros H. injection H as H. lra.
Qed.

(** C7, amended. For all points a and b, distance(a,b) equals
    distance(b,a) and distance(a,a) equals 0, so equal points are at
    distance zero; conversely (within floating tolerance), for two points
    with latitudes from -90 to 90 and longitudes at most 360 apart, a
    computed distance d bounds the arc between the latitudes and, scaled
    by the cosines of the latitudes, the arc between the longitudes up to
    a full turn, both by 3 d plus the tolerance: a distance that is zero
    within tolerance is the distance of points with equal latitudes and,
    away from the poles, longitudes equal or a full turn apart, within
    tolerance. *)
Theorem calculate_distance_symmetric_zero :
  forall a b : Pos,
    calculate_distance (fst a) (snd a) (fst b) (snd b)
    = calculate_distance (fst b) (snd b) (fst a) (snd a)
    /\ calculate_distance (fst a) (snd a) (fst a) (snd a) = Some 0
    /\ (a = b -> calculate_distance (fst a) (snd a) (fst b) (snd b) = Some 0)
    /\ (forall d : R,
          -90 <= fst a <= 90 -> -90 <= fst b <= 90 ->
          Rabs (snd b - snd a) <= 360 ->
          calculate_distance (fst a) (snd a) (fst b) (snd b) = Some d ->
          6371 * Rabs (radians (fst b - fst a)) <= 3 * d + floating_tolerance
          /\ 6371 * sqrt (cos (radians (fst a)) * cos (radians (fst b)))
             * radians (Rmin (Rabs (snd b - snd a))
                             (360 - Rabs (snd b - snd a)))
             <= 3 * d + floating_tolerance).
Proof.
  intros [a1 a2] [b1 b2]; cbn [fst snd].
  rewrite !calculate_distance_total.
  split; [| split; [| split]].
  - now rewrite haversine_sym.
  - now rewrite haversine_refl.
  - intros [= -> ->]. now rewrite haversine_refl.
  - intros d Ha Hb Hlon [= <-].
    assert (Htol : 0 <= floating_tolerance)
      by (unfold floating_tolerance; simpl pow; lra).
    pose proof (haversine_lat_arc (a1, a2) (b1, b2) Ha Hb) as Hlat.
    pose proof (haversine_lon_arc (a1, a2) (b1, b2) Ha Hb Hlon) as Harc.
    cbn [fst snd] in Hlat, Harc. split; lra.
Qed.

Lemma calculate_distance_symmetric_zero_witness :
  exists d,
    calculate_distance 0 0 0 (5 / 100) = Some d
    /\ calculate_distance 0 0 0 (5 / 100) = calculate_distance 0 (5 / 100) 0 0
    /\ 6371 * sqrt (cos (radians 0) * cos (radians 0))
       * radians (Rmin (Rabs (5 / 100 - 0)) (360 - Rabs (5 / 100 - 0)))
       <= 3 * d + floating_tolerance.
Proof.
  destruct (calculate_distance_symmetric_zero (0, 0) (0, 5 / 100))
    as (Hsym & _ & _ & Hconv).
  cbn [fst snd] in Hsym, Hconv.
  exists (haversine (0, 0) (0, 5 / 100)).
  split; [apply calculate_distance_total |]. split; [exact Hsym |].
  apply Hconv; try lra.
  - apply Rabs_le. lra.
  - apply calculate_distance_total.
Defined.

(** C6 fails as stated: for the truck at (0, 0) and one full bin at
    (0, 0.05) the reported fuel amount is not a whole number. *)
Lemma optimal_fuel_not_whole :
  exists r,
    optimize_route keep_order equator_truck one_dustbin = (ReportBody r, 200%Z)
    /\ ~ whole (r_optimal_fuel r).
Proof.
  assert (Hbins : bins_to_collect one_dustbin <> [])
    by (rewrite bins_to_collect_one; discriminate).
  destruct (optimize_route_report keep_order equator_truck one_dustbin 0 0
              eq_refl eq_refl Hbins) as (ev & Hev & Hresp).
  exists (report_of ev). split; [exact Hresp |].
  destruct (evaluate_total keep_order (0, 0) (bins_to_collect one_dustbin))
    as (ev' & Hev' & Href & _ & _ & Hfuel & _).
  assert (ev' = ev) by congruence. subst ev'.
  rewrite bins_to_collect_one, reference_solve_single in Href.
  injection Href as _ Hdist.
  unfold equator_bin, bin_pos in Hdist; cbn [bin_lat bin_lon] in Hdist.
  rewrite haversine_equator in Hdist by lra.
  unfold report_of; cbn [r_optimal_fuel]. unfold py_round_ndigits.
  rewrite Hfuel, Hdist.
  set (k := round_half_even (6371 * radians (5 / 100 - 0) / 12 * 10 ^ 2)).
  pose proof (round_half_even_near (6371 * radians (5 / 100 - 0) / 12 * 10 ^ 2))
    as [Hlo Hhi].
  fold k in Hlo, Hhi.
  pose proof PI_gt_2 as Hpi2. pose proof PI_4 as Hpi4.
  unfold radians in Hlo, Hhi. simpl pow in *.
  assert (Hk0 : 0 < IZR k) by lra.
  assert (Hk1 : IZR k < 100) by lra.
  apply lt_IZR in Hk0, Hk1.
  intros [z Hz].
  assert (Hkz : IZR k = IZR (100 * z)) by (rewrite mult_IZR; lra).
  apply eq_IZR in Hkz. lia.
Qed.

(** C6, amended. In every evaluation result the handler returns, the cost,
    the savings and the efficiency gain are rounded to whole numbers, and
    the optimal distance, the baseline distance and the fuel amount keep 2
    decimal digits; each reported figure is within half a unit of its last
    digit of the computed one (for the 2-digit figures up to the floating
    tolerance, the decimal not being a float). *)
Theorem report_rounding :
  forall (shuffle : list Bin -> list Bin) (truck : Truck)
         (dustbins : list (string * Dustbin)) (r : report),
    optimize_route shuffle truck dustbins = (ReportBody r, 200%Z) ->
    exists tlat tlon ev,
      truck_lat truck = Some tlat /\ truck_lon truck = Some tlon
      /\ evaluate shuffle (tlat, tlon) (bins_to_collect dustbins) = Some ev
      /\ (two_decimals (r_optimal_distance r)
          /\ Rabs (r_optimal_distance r - optimal_distance ev)
             <= 5 / 1000 + floating_tolerance)
      /\ (two_decimals (r_random_distance r)
          /\ Rabs (r_random_distance r - random_distance ev)
             <= 5 / 1000 + floating_tolerance)
      /\ (two_decimals (r_optimal_fuel r)
          /\ Rabs (r_optimal_fuel r - optimal_fuel ev)
             <= 5 / 1000 + floating_tolerance)
      /\ Rabs (IZR (r_optimal_cost r) - fuel_cost ev) <= 1 / 2
      /\ Rabs (IZR (r_savings r) - savings ev) <= 1 / 2
      /\ Rabs (IZR (r_efficiency_gain r) - efficiency ev) <= 1 / 2.
Proof.
  intros shuffle truck dustbins r Hresp.
  destruct (optimize_route_report_ev _ _ _ _ _ Hresp)
    as (tlat & tlon & ev & Hlat & Hlon & Hev & ->).
  exists tlat, tlon, ev. split; [exact Hlat |]. split; [exact Hlon |].
  split; [exact Hev |].
  unfold report_of; cbn [r_optimal_distance r_random_distance r_optimal_fuel
                         r_optimal_cost r_savings r_efficiency_gain].
  assert (Hint : forall x, Rabs (IZR (py_round x) - x) <= 1 / 2).
  { intros x. unfold py_round. pose proof (round_half_even_near x).
    apply Rabs_le. lra. }
  assert (Hdec : forall x,
             Rabs (py_round_ndigits x 2 - x) <= 5 / 1000 + floating_tolerance).
  { intros x. pose proof (py_round_ndigits_near x).
    unfold floating_tolerance. simpl pow. lra. }
  repeat split; auto using py_round_ndigits_two_decimals.
Qed.

Lemma report_rounding_witness :
  exists r ev,
    optimize_route keep_order equator_truck one_dustbin = (ReportBody r, 200%Z)
    /\ evaluate keep_order (0, 0) (bins_to_collect one_dustbin) = Some ev
    /\ two_decimals (r_optimal_fuel r)
    /\ Rabs (IZR (r_optimal_cost r) - fuel_cost ev) <= 1 / 2.
Proof.
  assert (Hbins : bins_to_collect one_dustbin <> [])
    by (rewrite bins_to_collect_one; discriminate).
  destruct (optimize_route_report keep_order equator_truck one_dustbin 0 0
              eq_refl eq_refl Hbins) as (ev0 & _ & Hresp).
  destruct (report_rounding keep_order equator_truck one_dustbin _ Hresp)
    as (tlat & tlon & ev & Hlat & Hlon & Hev & _ & _ & (Hfuel & _) & Hcost & _).
  injection Hlat as <-. injection Hlon as <-.
  exists (report_of ev0), ev. auto.
Defined.

(** ** Two waypoints *)

Lemma reference_solve_pair (start : Pos) (b1 b2 : Bin) :
  reference_solve start [b1; b2]
  = if Rlt_dec (haversine start (bin_pos b2)) (haversine start (bin_pos b1))
    then ([b2; b1],
          haversine start (bin_pos b2) + haversine (bin_pos b2) (bin_pos b1))
    else ([b1; b2],
          haversine start (bin_pos b1) + haversine (bin_pos b1) (bin_pos b2)).
Proof.
  unfold reference_solve. cbn [List.length greedy_order nearest_in].
  destruct (Rlt_dec _ _) as [Hlt | Hge]; cbn [remove_first].
  - destruct (Bin_eq_dec b1 b2) as [-> | Hne]; [lra |].
    destruct (Bin_eq_dec b2 b2) as [_ | Hn]; [| contradiction].
    cbn. f_equal. ring.
  - destruct (Bin_eq_dec b1 b1) as [_ | Hn]; [| contradiction].
    cbn. f_equal. ring.
Qed.

Lemma shuffled_pair_sum (shuffle : list Bin -> list Bin) (b1 b2 : Bin) :
  is_shuffle shuffle ->
  consecutive_sum (shuffle [b1; b2]) = haversine (bin_pos b1) (bin_pos b2).
Proof.
  intros Hshuffle.
  destruct (Permutation_length_2_inv (Hshuffle [b1; b2])) as [-> | ->]; cbn.
  - ring.
  - rewrite (haversine_sym (bin_pos b2)). ring.
Qed.

Lemma optimal_distance_pair (start : Pos) (b1 b2 : Bin) :
  snd (reference_solve start [b1; b2])
  = Rmin (haversine start (bin_pos b1)) (haversine start (bin_pos b2))
    + haversine (bin_pos b1) (bin_pos b2).
Proof.
  rewrite reference_solve_pair. unfold Rmin.
  destruct (Rlt_dec _ _) as [Hlt | Hge]; cbn [snd];
    destruct (Rle_dec _ _) as [Hle | Hnle]; try lra.
  rewrite (haversine_sym (bin_pos b2)). reflexivity.
Qed.

(** C10 fails as stated: for the truck at (0, 0) and two full bins at
    (0, 0.25) and (0, 100.25), two distinct positions with the truck at
    positive distance from the nearer one, the reported efficiency gain is
    0, not a negative number. *)
Lemma efficiency_gain_rounds_to_zero :
  exists r,
    optimize_route keep_order equator_truck two_dustbins = (ReportBody r, 200%Z)
    /\ ((0, 25 / 100) : Pos) <> (0, 10025 / 100)
    /\ (exists d, calculate_distance 0 0 0 (25 / 100) = Some d /\ 0 < d)
    /\ r_efficiency_gain r = 0%Z.
Proof.
  pose proof PI_RGT_0 as Hpi.
  assert (Hbins : bins_to_collect two_dustbins <> [])
    by (rewrite bins_to_collect_two; discriminate).
  destruct (optimize_route_report keep_order equator_truck two_dustbins 0 0
              eq_refl eq_refl Hbins) as (ev & Hev & Hresp).
  exists (report_of ev). split; [exact Hresp |].
  split; [intros H; injection H as H; lra |].
  split.
  { exists (haversine (0, 0) (0, 25 / 100)).
    split; [apply calculate_distance_total |].
    rewrite haversine_equator by lra. unfold radians. nra. }
  destruct (evaluate_total keep_order (0, 0) (bins_to_collect two_dustbins))
    as (ev' & Hev' & Href & _ & Hrd & _ & _ & _ & Heff).
  assert (ev' = ev) by congruence. subst ev'.
  rewrite bins_to_collect_two in Href, Hrd.
  apply (f_equal snd) in Href. cbn [snd] in Href.
  rewrite optimal_distance_pair in Href.
  unfold keep_order in Hrd. cbn [consecutive_sum] in Hrd.
  unfold equator_bin, bin_pos in Href, Hrd; cbn [bin_lat bin_lon] in Href, Hrd.
  rewrite !haversine_equator in Href by lra.
  rewrite haversine_equator in Hrd by lra.
  rewrite Rmin_left in Href by (unfold radians; nra).
  assert (Hrd_pos : 0 < random_distance ev) by (rewrite Hrd; unfold radians; nra).
  destruct (Rlt_dec 0 (random_distance ev)) as [_ | Hn]; [| contradiction].
  assert (Heff' : efficiency ev = - (1 / 4)).
  { rewrite Heff, Href, Hrd. unfold radians. field. apply PI_neq0. }
  unfold report_of, py_round; cbn [r_efficiency_gain].
  rewrite Heff'. apply round_half_even_small. lra.
Qed.

(** C10, amended. For every input with exactly two waypoints, in every
    evaluation the handler completes: every permutation the shuffle can
    draw gives the same baseline distance, the computed distance between
    the two waypoints; the solver's total is the computed leg from the
    start to the nearer waypoint plus that distance; so the baseline is at
    most the total, the savings and the efficiency gain are negative or
    zero before rounding and as reported, and the efficiency gain before
    rounding is strictly negative whenever the baseline is positive and
    strictly less than the total. *)
Theorem two_waypoints_baseline_at_most_total :
  forall shuffle : list Bin -> list Bin, is_shuffle shuffle ->
  forall (start : Pos) (b1 b2 : Bin) (ev : locals),
    evaluate shuffle start [b1; b2] = Some ev ->
    exists k1 k2 k12,
      distance_to start b1 = Some k1
      /\ distance_to start b2 = Some k2
      /\ distance_to (bin_pos b1) b2 = Some k12
      /\ random_distance ev = k12
      /\ optimal_distance ev = Rmin k1 k2 + k12
      /\ random_distance ev <= optimal_distance ev
      /\ savings ev <= 0 /\ efficiency ev <= 0
      /\ (r_savings (report_of ev) <= 0)%Z
      /\ (r_efficiency_gain (report_of ev) <= 0)%Z
      /\ (0 < random_distance ev ->
          random_distance ev < optimal_distance ev ->
          efficiency ev < 0).
Proof.
  intros shuffle Hshuffle start b1 b2 ev Hev.
  destruct (evaluate_inv _ _ _ _ Hev)
    as (Hsolve & _ & Hdist & Hfuel & _ & Hsav & Heff).
  assert (Hod : snd (reference_solve start [b1; b2]) = optimal_distance ev).
  { rewrite optimize_route_tsp_reference in Hsolve.
    destruct (reference_solve start [b1; b2]) as [order total].
    injection Hsolve as _ Htotal. exact Htotal. }
  rewrite optimal_distance_pair in Hod.
  rewrite random_route_distance_sum in Hdist. injection Hdist as Hrd.
  rewrite (shuffled_pair_sum shuffle b1 b2 Hshuffle) in Hrd.
  exists (haversine start (bin_pos b1)), (haversine start (bin_pos b2)),
         (haversine (bin_pos b1) (bin_pos b2)).
  split; [apply distance_to_total |]. split; [apply distance_to_total |].
  split; [apply distance_to_total |].
  split; [now symmetry |]. split; [now symmetry |].
  assert (Hleg : 0 <= Rmin (haversine start (bin_pos b1))
                           (haversine start (bin_pos b2)))
    by (apply Rmin_glb; apply haversine_nonneg).
  set (leg := Rmin (haversine start (bin_pos b1)) (haversine start (bin_pos b2)))
    in *.
  assert (Hle : random_distance ev <= optimal_distance ev) by lra.
  assert (Hs : savings ev <= 0).
  { rewrite Hsav. destruct (Rlt_dec 0 (random_distance ev)); lra. }
  assert (He : efficiency ev <= 0).
  { rewrite Heff. destruct (Rlt_dec 0 (random_distance ev)) as [Hpos | _]; [| lra].
    pose proof (Rinv_0_lt_compat _ Hpos). unfold Rdiv. nra. }
  split; [exact Hle |]. split; [exact Hs |]. split; [exact He |].
  unfold report_of, py_round; cbn [r_savings r_efficiency_gain].
  split; [now apply round_half_even_nonpos |].
  split; [now apply round_half_even_nonpos |].
  intros Hpos Hlt. rewrite Heff.
  destruct (Rlt_dec 0 (random_distance ev)) as [_ | Hn]; [| contradiction].
  pose proof (Rinv_0_lt_compat _ Hpos). unfold Rdiv. nra.
Qed.

Lemma two_waypoints_baseline_at_most_total_witness :
  exists ev,
    evaluate keep_order (0, 0)
      [equator_bin "1" (25 / 100); equator_bin "2" (10025 / 100)] = Some ev
    /\ random_distance ev < optimal_distance ev
    /\ savings ev <= 0 /\ efficiency ev < 0.
Proof.
  destruct (evaluate_total keep_order (0, 0)
              [equator_bin "1" (25 / 100); equator_bin "2" (10025 / 100)])
    as (ev & Hev & _).
  destruct (two_waypoints_baseline_at_most_total keep_order is_shuffle_keep_order
              _ _ _ _ Hev)
    as (k1 & k2 & k12 & Hk1 & Hk2 & Hk12 & Hrd & Hod & _ & Hs & _ & _ & _ & Hstrict).
  pose proof PI_RGT_0 as Hpi.
  rewrite distance_to_total in Hk1, Hk2, Hk12.
  injection Hk1 as <-. injection Hk2 as <-. injection Hk12 as <-.
  unfold equator_bin, bin_pos in Hrd, Hod; cbn [bin_lat bin_lon] in Hrd, Hod.
  rewrite !haversine_equator in Hod by lra.
  rewrite haversine_equator in Hrd by lra.
  rewrite Rmin_left in Hod by (unfold radians; nra).
  assert (Hpos : 0 < random_distance ev) by (rewrite Hrd; unfold radians; nra).
  assert (Hlt : random_distance ev < optimal_distance ev)
    by (rewrite Hrd, Hod; unfold radians; nra).
  exists ev. split; [exact Hev |]. split; [exact Hlt |].
  split; [exact Hs | exact (Hstrict Hpos Hlt)].
Defined.

(** * Further properties of the code *)

(** ** The distance *)

Lemma atan2_quadrant (y x : R) : 0 <= y -> 0 <= x -> atan2 y x <= PI / 2.
Proof.
  intros Hy Hx. unfold atan2. pose proof PI_RGT_0.
  destruct (Rlt_dec 0 x) as [Hpos | Hnpos].
  - left. apply atan_bound.
  - destruct (Rlt_dec x 0); [lra |].
    destruct (Rlt_dec 0 y); [lra |].
    destruct (Rlt_dec y 0); lra.
Qed.

Lemma haversine_half_turn (a b : Pos) : haversine a b <= 6371 * PI.
Proof.
  unfold haversine; cbv zeta.
  pose proof (atan2_quadrant (sqrt (haversine_term a b))
                (sqrt (1 - haversine_term a b)) (sqrt_pos _) (sqrt_pos _)).
  lra.
Qed.

(** X1. A distance [calculate_distance] returns lies between 0 and half
    the circumference of the sphere, 6371 * PI km. *)
Theorem calculate_distance_range :
  forall (lat1 lon1 lat2 lon2 d : R),
    calculate_distance lat1 lon1 lat2 lon2 = Some d ->
    0 <= d <= 6371 * PI.
Proof.
  intros lat1 lon1 lat2 lon2 d. rewrite calculate_distance_total.
  intros [= <-]. split; [apply haversine_nonneg | apply haversine_half_turn].
Qed.

Lemma calculate_distance_range_witness :
  exists d, calculate_distance 0 0 0 (5 / 100) = Some d /\ 0 <= d <= 6371 * PI.
Proof.
  exists (haversine (0, 0) (0, 5 / 100)).
  split; [apply calculate_distance_total |].
  exact (calculate_distance_range 0 0 0 (5 / 100) _
           (calculate_distance_total 0 0 0 (5 / 100))).
Defined.

(** ** The handler and the registry of bins *)

Lemma consecutive_sum_nonneg (order : list Bin) : 0 <= consecutive_sum order.
Proof.
  induction order as [| x [| y rest] IH]; cbn [consecutive_sum]; try lra.
  pose proof (haversine_nonneg (bin_pos x) (bin_pos y)).
  cbn [consecutive_sum] in IH. lra.
Qed.

Lemma route_length_nonneg (start : Pos) (order : list Bin) :
  0 <= route_length start order.
Proof.
  destruct order as [| w rest]; cbn [route_length]; [lra |].
  pose proof (haversine_nonneg start (bin_pos w)).
  pose proof (consecutive_sum_nonneg (w :: rest)). lra.
Qed.

Lemma round_half_even_le (x : R) (z : Z) :
  x <= IZR z -> (round_half_even x <= z)%Z.
Proof.
  intros Hx. pose proof (round_half_even_near x) as [Hlo _].
  assert (H : IZR (round_half_even x) < IZR (z + 1))
    by (rewrite plus_IZR; lra).
  apply lt_IZR in H. lia.
Qed.

Lemma round_half_even_ge (x : R) (z : Z) :
  IZR z <= x -> (z <= round_half_even x)%Z.
Proof.
  intros Hx. pose proof (round_half_even_near x) as [_ Hhi].
  assert (H : IZR (z - 1) < IZR (round_half_even x))
    by (rewrite minus_IZR; lra).
  apply lt_IZR in H. lia.
Qed.

(** X3. In every evaluation the handler completes, the optimal and the
    baseline distance and the fuel cost are non-negative, the efficiency
    gain is at most 100 and the savings are at most the fuel cost of the
    baseline route; the reported cost is not negative and the reported
    efficiency gain not above 100. *)
Theorem metrics_bounds :
  forall (shuffle : list Bin -> list Bin) (truck_pos : Pos) (bins : list Bin)
         (ev : locals),
    evaluate shuffle truck_pos bins = Some ev ->
    0 <= optimal_distance ev
    /\ 0 <= random_distance ev
    /\ 0 <= fuel_cost ev
    /\ efficiency ev <= 100
    /\ savings ev <= random_distance ev / 12 * 100
    /\ (0 <= r_optimal_cost (report_of ev))%Z
    /\ (r_efficiency_gain (report_of ev) <= 100)%Z.
Proof.
  intros shuffle truck_pos bins ev Hev.
  destruct (evaluate_inv _ _ _ _ Hev)
    as (Hsolve & _ & Hdist & Hfuel & Hcost & Hsav & Heff).
  assert (Hod : 0 <= optimal_distance ev).
  { apply optimize_route_tsp_result in Hsolve. destruct Hsolve as [_ ->].
    apply route_length_nonneg. }
  assert (Hrd0 : 0 <= random_distance ev).
  { rewrite random_route_distance_sum in Hdist. injection Hdist as <-.
    apply consecutive_sum_nonneg. }
  assert (Hcost0 : 0 <= fuel_cost ev) by (rewrite Hcost, Hfuel; lra).
  assert (Heff100 : efficiency ev <= 100).
  { rewrite Heff. destruct (Rlt_dec 0 (random_distance ev)) as [Hpos | _]; [| lra].
    replace ((random_distance ev - optimal_distance ev) / random_distance ev * 100)
      with (100 - optimal_distance ev / random_distance ev * 100)
      by (field; lra).
    assert (0 <= optimal_distance ev / random_distance ev).
    { unfold Rdiv. apply Rmult_le_pos; [exact Hod |].
      left. now apply Rinv_0_lt_compat. }
    lra. }
  assert (Hsav' : savings ev <= random_distance ev / 12 * 100).
  { rewrite Hsav, Hfuel. destruct (Rlt_dec 0 (random_distance ev)); lra. }
  repeat split; try assumption.
  - unfold report_of, py_round; cbn [r_optimal_cost].
    now apply round_half_even_ge.
  - unfold report_of, py_round; cbn [r_efficiency_gain].
    now apply round_half_even_le.
Qed.

Lemma metrics_bounds_witness :
  exists ev,
    evaluate keep_order (0, 0)
      [equator_bin "1" (25 / 100); equator_bin "2" (10025 / 100)] = Some ev
    /\ 0 <= optimal_distance ev
    /\ efficiency ev <= 100
    /\ (r_efficiency_gain (report_of ev) <= 100)%Z.
Proof.
  destruct (evaluate_total keep_order (0, 0)
              [equator_bin "1" (25 / 100); equator_bin "2" (10025 / 100)])
    as (ev & Hev & _).
  destruct (metrics_bounds _ _ _ _ Hev) as (Hod & _ & _ & Heff & _ & _ & Hrep).
  exists ev. auto.
Defined.

Lemma bins_to_collect_nil (dustbins : list (string * Dustbin)) :
  bins_to_collect dustbins = [] <->
  (forall kv, In kv dustbins -> fill (snd kv) < 50).
Proof.
  unfold bins_to_collect. induction dustbins as [| kv d IH]; cbn [filter map].
  - split; [intros _ kv [] | reflexivity].
  - destruct (Rle_dec 50 (fill (snd kv))) as [Hge | Hlt]; cbn [map].
    + split; [discriminate |]. intros H.
      specialize (H kv (or_introl eq_refl)). lra.
    + rewrite IH. split.
      * intros H kv' [<- | Hin]; [lra | now apply H].
      * intros H kv' Hin. apply H. now right.
Qed.

Lemma bins_to_collect_ids (dustbins : list (string * Dustbin)) :
  map (fun b => (bin_id b, bin_name b)) (bins_to_collect dustbins)
  = map (fun kv => (fst kv, name (snd kv)))
        (filter (fun kv => if Rle_dec 50 (fill (snd kv)) then true else false)
                dustbins).
Proof.
  unfold bins_to_collect. rewrite map_map. reflexivity.
Qed.

Lemma report_route_perm (shuffle : list Bin -> list Bin) (truck_pos : Pos)
    (bins : list Bin) (ev : locals) :
  evaluate shuffle truck_pos bins = Some ev ->
  Permutation (map (fun b => (bin_id b, bin_name b)) bins)
              (r_route (report_of ev)).
Proof.
  intros Hev.
  destruct (evaluate_total shuffle truck_pos bins) as (ev' & Hev' & Href & _).
  assert (ev' = ev) by congruence. subst ev'.
  apply (f_equal fst) in Href. cbn [fst] in Href.
  unfold report_of; cbn [r_route]. rewrite Href.
  unfold reference_solve; cbn [fst].
  apply Permutation_map, greedy_order_perm. lia.
Qed.

(** X4. With the truck position set and at least one bin filled to 50 or
    more, the handler answers a report with status 200, or status 500 when
    a computation raised; and the route of every report the handler
    answers lists, as (id, name) pairs, exactly the bins with fill >= 50:
    each of them once, no other bin. *)
Theorem route_lists_bins_to_collect :
  forall (shuffle : list Bin -> list Bin) (truck : Truck)
         (dustbins : list (string * Dustbin)),
    (forall tlat tlon,
        truck_lat truck = Some tlat -> truck_lon truck = Some tlon ->
        (exists kv, In kv dustbins /\ 50 <= fill (snd kv)) ->
        (exists r, optimize_route shuffle truck dustbins = (ReportBody r, 200%Z))
        \/ optimize_route shuffle truck dustbins = (ExceptionBody, 500%Z))
    /\ (forall r st,
          optimize_route shuffle truck dustbins = (ReportBody r, st) ->
          st = 200%Z
          /\ Permutation
               (map (fun kv => (fst kv, name (snd kv)))
                    (filter (fun kv => if Rle_dec 50 (fill (snd kv))
                                       then true else false)
                            dustbins))
               (r_route r)).
Proof.
  intros shuffle truck dustbins. split.
  - intros tlat tlon Hlat Hlon (kv & Hin & Hfill).
    assert (Hbins : bins_to_collect dustbins <> []).
    { intros Hnil. rewrite bins_to_collect_nil in Hnil.
      specialize (Hnil kv Hin). lra. }
    unfold optimize_route. rewrite Hlat, Hlon.
    destruct (bins_to_collect dustbins) as [| b bins]; [contradiction |].
    destruct (evaluate shuffle (tlat, tlon) (b :: bins)) as [ev |]; eauto.
  - intros r st Hresp. split.
    + unfold optimize_route in Hresp.
      destruct (truck_lat truck), (truck_lon truck); try discriminate.
      destruct (bins_to_collect dustbins); [discriminate |].
      destruct (evaluate shuffle _ _); [| discriminate].
      now injection Hresp as _ <-.
    + rewrite <- bins_to_collect_ids.
      destruct (optimize_route_report_ev _ _ _ _ _ Hresp)
        as (tlat & tlon & ev & _ & _ & Hev & ->).
      eapply report_route_perm, Hev.
Qed.

Lemma route_lists_bins_to_collect_witness :
  exists r,
    optimize_route keep_order equator_truck one_dustbin = (ReportBody r, 200%Z)
    /\ Permutation
         (map (fun kv => (fst kv, name (snd kv)))
              (filter (fun kv => if Rle_dec 50 (fill (snd kv)) then true else false)
                      one_dustbin))
         (r_route r).
Proof.
  assert (Hbins : bins_to_collect one_dustbin <> [])
    by (rewrite bins_to_collect_one; discriminate).
  destruct (optimize_route_report keep_order equator_truck one_dustbin 0 0
              eq_refl eq_refl Hbins) as (ev & _ & Hresp).
  exists (report_of ev). split; [exact Hresp |].
  exact (proj2 (proj2 (route_lists_bins_to_collect keep_order equator_truck
                         one_dustbin) _ _ Hresp)).
Defined.

(** X5. With the truck position set, the handler answers the message
    "No bins need collection" (distance 0, empty route, status 200)
    exactly when every bin, if there is any, is filled below 50. *)
Theorem no_collection_message :
  forall (shuffle : list Bin -> list Bin) (truck : Truck)
         (dustbins : list (string * Dustbin)) (tlat tlon : R),
    truck_lat truck = Some tlat -> truck_lon truck = Some tlon ->
    ((forall kv, In kv dustbins -> fill (snd kv) < 50) <->
     optimize_route shuffle truck dustbins
     = (MessageBody "No bins need collection" 0 [], 200%Z)).
Proof.
  intros shuffle truck dustbins tlat tlon Hlat Hlon.
  rewrite <- bins_to_collect_nil. split.
  - intros Hnil. unfold optimize_route. now rewrite Hlat, Hlon, Hnil.
  - intros Hresp.
    destruct (bins_to_collect dustbins) as [| b bins] eqn:Hb; [reflexivity |].
    assert (Hne : bins_to_collect dustbins <> []) by (rewrite Hb; discriminate).
    destruct (optimize_route_report shuffle truck dustbins tlat tlon Hlat Hlon Hne)
      as (ev & _ & Hrep).
    rewrite Hrep in Hresp. discriminate.
Qed.

Lemma no_collection_message_witness :
  optimize_route keep_order equator_truck dustbins_initial
  = (MessageBody "No bins need collection" 0 [], 200%Z).
Proof.
  apply (proj1 (no_collection_message keep_order equator_truck dustbins_initial
                  0 0 eq_refl eq_refl)).
  intros kv [<- | []]. cbn. lra.
Defined.

(** ** The dict operations *)

Lemma dict_has_In (k : string) (d : list (string * Dustbin)) :
  dict_has k d = true <-> In k (map fst d).
Proof.
  unfold dict_has. rewrite existsb_exists, in_map_iff. split.
  - intros (kv & Hin & Heq). apply String.eqb_eq in Heq. now exists kv.
  - intros (kv & Heq & Hin). exists kv. split; [exact Hin |].
    now apply String.eqb_eq.
Qed.

Lemma dict_has_del (k : string) (d : list (string * Dustbin)) :
  dict_has k (dict_del k d) = false.
Proof.
  apply not_true_is_false. rewrite dict_has_In, in_map_iff.
  intros (kv & Heq & Hin). unfold dict_del in Hin.
  apply filter_In in Hin. destruct Hin as [_ Hne].
  apply String.eqb_eq in Heq. rewrite Heq in Hne. discriminate.
Qed.

Lemma dict_get_del_other (k k' : string) (d : list (string * Dustbin)) :
  k' <> k -> dict_get k' (dict_del k d) = dict_get k' d.
Proof.
  intros Hne. unfold dict_del.
  induction d as [| kv d IH]; [reflexivity |]. cbn [filter dict_get].
  destruct (String.eqb_spec (fst kv) k) as [Hk | Hk]; cbn [negb].
  - destruct (String.eqb_spec (fst kv) k') as [Hk' | _]; [congruence | exact IH].
  - cbn [dict_get]. now rewrite IH.
Qed.

Lemma dict_del_absent (k : string) (d : list (string * Dustbin)) :
  ~ In k (map fst d) -> dict_del k d = d.
Proof.
  unfold dict_del. induction d as [| kv d IH]; intros Hnin; [reflexivity |].
  cbn [filter]. cbn [map In] in Hnin.
  destruct (String.eqb_spec (fst kv) k) as [Hk | _]; [tauto |].
  cbn [negb]. f_equal. apply IH. tauto.
Qed.

Lemma dict_del_split (k : string) (d : list (string * Dustbin)) :
  NoDup (map fst d) -> In k (map fst d) ->
  exists before v after,
    d = before ++ (k, v) :: after /\ dict_del k d = before ++ after.
Proof.
  induction d as [| kv d IH]; intros Hnd Hin; [destruct Hin |].
  cbn [map] in Hnd. apply NoDup_cons_iff in Hnd. destruct Hnd as [Hfresh Hnd].
  destruct (String.eqb_spec (fst kv) k) as [Hk | Hk].
  - exists [], (snd kv), d. destruct kv as [k0 v0]; cbn [fst snd] in *. subst k0.
    split; [reflexivity |].
    unfold dict_del. cbn [filter fst]. rewrite String.eqb_refl. cbn [negb app].
    now apply dict_del_absent.
  - destruct Hin as [Hin | Hin]; [contradiction |].
    destruct (IH Hnd Hin) as (before & v & after & Hd & Hdel).
    exists (kv :: before), v, after. split; [now rewrite Hd |].
    unfold dict_del in *. cbn [filter].
    destruct (String.eqb_spec (fst kv) k) as [| _]; [contradiction |].
    cbn [negb app]. now rewrite Hdel.
Qed.

Lemma dict_del_keys (k : string) (d : list (string * Dustbin)) :
  NoDup (map fst d) -> NoDup (map fst (dict_del k d)).
Proof.
  unfold dict_del. induction d as [| kv d IH]; intros Hnd; [constructor |].
  cbn [map] in Hnd. apply NoDup_cons_iff in Hnd. destruct Hnd as [Hfresh Hnd].
  cbn [filter]. destruct (negb (String.eqb (fst kv) k)); [| now apply IH].
  cbn [map]. constructor; [| now apply IH].
  intros Hin. apply Hfresh.
  apply in_map_iff in Hin. destruct Hin as (kv' & Heq & Hin').
  apply filter_In in Hin'. apply in_map_iff. exists kv'. tauto.
Qed.

(** X6. [delete_dustbin] on a registry with distinct keys: a present id
    is answered with 200 and its entry alone is taken out, the other
    entries staying in their order; an absent id is answered with 404 and
    nothing changes; after the call the id is not in the registry and the
    keys are still distinct. *)
Theorem delete_dustbin_effect :
  forall (bin_id : string) (dustbins : list (string * Dustbin)),
    NoDup (map fst dustbins) ->
    (dict_has bin_id dustbins = true ->
       exists before v after,
         dustbins = before ++ (bin_id, v) :: after
         /\ delete_dustbin bin_id dustbins = (before ++ after, 200%Z))
    /\ (dict_has bin_id dustbins = false ->
          delete_dustbin bin_id dustbins = (dustbins, 404%Z))
    /\ dict_has bin_id (fst (delete_dustbin bin_id dustbins)) = false
    /\ (forall k, k <> bin_id ->
          dict_get k (fst (delete_dustbin bin_id dustbins)) = dict_get k dustbins)
    /\ NoDup (map fst (fst (delete_dustbin bin_id dustbins))).
Proof.
  intros bin_id dustbins Hnd. unfold delete_dustbin.
  destruct (dict_has bin_id dustbins) eqn:Hhas; cbn [fst].
  - split; [| split; [discriminate | split; [| split]]].
    + intros _. apply dict_has_In in Hhas.
      destruct (dict_del_split bin_id dustbins Hnd Hhas)
        as (before & v & after & Hd & Hdel).
      exists before, v, after. now rewrite Hdel.
    + apply dict_has_del.
    + intros k Hk. now apply dict_get_del_other.
    + now apply dict_del_keys.
  - split; [discriminate | split; [reflexivity | split; [exact Hhas | split]]].
    + reflexivity.
    + exact Hnd.
Qed.

Lemma dustbins_initial_keys : NoDup (map fst dustbins_initial).
Proof. repeat constructor. intros []. Defined.

Lemma delete_dustbin_effect_witness :
  delete_dustbin "1" dustbins_initial = ([], 200%Z)
  /\ dict_has "1" (fst (delete_dustbin "1" dustbins_initial)) = false.
Proof.
  destruct (delete_dustbin_effect "1" dustbins_initial dustbins_initial_keys)
    as (_ & _ & Hgone & _).
  split; [reflexivity | exact Hgone].
Defined.

Lemma optimize_route_report_inv (shuffle : list Bin -> list Bin) (truck : Truck)
    (dustbins : list (string * Dustbin)) (r : report) (st : Z) :
  optimize_route shuffle truck dustbins = (ReportBody r, st) ->
  Permutation
    (map (fun b => (bin_id b, bin_name b)) (bins_to_collect dustbins))
    (r_route r).
Proof.
  unfold optimize_route.
  destruct (truck_lat truck) as [tlat |]; [| discriminate].
  destruct (truck_lon truck) as [tlon |]; [| discriminate].
  destruct (bins_to_collect dustbins) as [| b bins] eqn:Hb; [discriminate |].
  destruct (evaluate shuffle (tlat, tlon) (b :: bins)) as [ev |] eqn:Hev;
    [| discriminate].
  intros [= <- _]. eapply report_route_perm, Hev.
Qed.

(** X7. A bin that was deleted is in no route computed afterwards: when
    the handler, run on the registry [delete_dustbin] leaves, answers a
    report, no entry of its route carries the deleted id. *)
Theorem deleted_bin_not_routed :
  forall (shuffle : list Bin -> list Bin) (truck : Truck) (bin_id : string)
         (dustbins : list (string * Dustbin)) (r : report),
    optimize_route shuffle truck (fst (delete_dustbin bin_id dustbins))
    = (ReportBody r, 200%Z) ->
    forall nm, ~ In (bin_id, nm) (r_route r).
Proof.
  intros shuffle truck bin_id dustbins r Hresp nm Hin.
  apply optimize_route_report_inv in Hresp.
  apply (Permutation_in _ (Permutation_sym Hresp)) in Hin.
  rewrite bins_to_collect_ids in Hin.
  apply in_map_iff in Hin. destruct Hin as (kv & Heq & Hkv).
  apply filter_In in Hkv. destruct Hkv as [Hkv _].
  injection Heq as Hk _.
  assert (Hhas : dict_has bin_id (fst (delete_dustbin bin_id dustbins)) = true).
  { apply dict_has_In, in_map_iff. now exists kv. }
  unfold delete_dustbin in Hhas.
  destruct (dict_has bin_id dustbins) eqn:Hd; cbn [fst] in Hhas.
  - rewrite dict_has_del in Hhas. discriminate.
  - congruence.
Qed.

Lemma deleted_bin_not_routed_witness :
  exists r,
    optimize_route keep_order equator_truck (fst (delete_dustbin "2" two_dustbins))
    = (ReportBody r, 200%Z)
    /\ forall nm, ~ In ("2"%string, nm) (r_route r).
Proof.
  assert (Hbins : bins_to_collect (fst (delete_dustbin "2" two_dustbins)) <> []).
  { intros Hnil. rewrite bins_to_collect_nil in Hnil.
    specialize (Hnil (equator_dustbin "1" (25 / 100)) (or_introl eq_refl)).
    cbn in Hnil. lra. }
  destruct (optimize_route_report keep_order equator_truck
              (fst (delete_dustbin "2" two_dustbins)) 0 0 eq_refl eq_refl Hbins)
    as (ev & _ & Hresp).
  exists (report_of ev). split; [exact Hresp |].
  exact (deleted_bin_not_routed keep_order equator_truck "2" two_dustbins
           (report_of ev) Hresp).
Defined.

(** ** [add_dustbin] *)

Lemma fold_left_max_ge (l : list Z) (a : Z) :
  (a <= fold_left Z.max l a)%Z
  /\ forall x, In x l -> (x <= fold_left Z.max l a)%Z.
Proof.
  revert a. induction l as [| y l IH]; intros a; cbn [fold_left].
  - split; [lia | intros x []].
  - destruct (IH (Z.max a y)) as [Ha Hl]. split; [lia |].
    intros x [<- | Hx]; [lia | now apply Hl].
Qed.

Lemma max_default0_ge (ns : list Z) (n : Z) :
  In n ns -> (n <= max_default0 ns)%Z.
Proof.
  destruct ns as [| m ns]; [intros [] |]. cbn [max_default0].
  destruct (fold_left_max_ge ns m) as [Hm Hns].
  intros [<- | Hin]; [exact Hm | now apply Hns].
Qed.

Lemma int_keys_numeral (py_int : string -> option Z)
    (d : list (string * Dustbin)) :
  (forall n, py_int (py_str n) = Some n) -> numeral_keys d ->
  exists ns, int_keys py_int d = Some ns /\ map py_str ns = map fst d.
Proof.
  intros Hint. induction 1 as [| kv d [n Hn] _ (ns & Hns & Hmap)].
  - exists []. split; reflexivity.
  - exists (n :: ns). cbn [int_keys map].
    rewrite Hn, Hint, Hns. cbn [bind]. now rewrite Hmap.
Qed.

Lemma new_id_fresh (py_int : string -> option Z)
    (d : list (string * Dustbin)) (ns : list Z) :
  (forall n, py_int (py_str n) = Some n) ->
  map py_str ns = map fst d ->
  ~ In (py_str (max_default0 ns + 1)) (map fst d).
Proof.
  intros Hint Hmap Hin. rewrite <- Hmap in Hin.
  apply in_map_iff in Hin. destruct Hin as (n & Heq & Hn).
  apply (f_equal py_int) in Heq. rewrite !Hint in Heq. injection Heq as Heq.
  apply max_default0_ge in Hn. lia.
Qed.

Lemma dict_set_absent (k : string) (v : Dustbin) (d : list (string * Dustbin)) :
  ~ In k (map fst d) -> dict_set k v d = d ++ [(k, v)].
Proof.
  induction d as [| kv d IH]; intros Hnin; [reflexivity |].
  cbn [map In] in Hnin. cbn [dict_set app].
  destruct (String.eqb_spec (fst kv) k) as [Hk | _]; [tauto |].
  f_equal. apply IH. tauto.
Qed.

(** What a 201 answer of [add_dustbin] was computed from. *)
Lemma add_dustbin_added (py_int : string -> option Z)
    (float_of_string : string -> option R) (request_json : option json)
    (dustbins d' : list (string * Dustbin)) (new_id : string) :
  add_dustbin py_int float_of_string request_json dustbins = Added d' new_id ->
  exists ns b,
    int_keys py_int dustbins = Some ns
    /\ new_id = py_str (max_default0 ns + 1)
    /\ d' = dict_set new_id b dustbins
    /\ fill b = 0 /\ status b = "EMPTY"%string.
Proof.
  unfold add_dustbin.
  destruct request_json as [data |]; cbn [bind]; [| discriminate].
  destruct (int_keys py_int dustbins) as [ns |]; cbn [bind]; [| discriminate].
  destruct (json_get data "name" _) as [name_v |]; cbn [bind]; [| discriminate].
  destruct (json_get data "location" _) as [location_v |]; cbn [bind];
    [| discriminate].
  destruct (json_get data "lat" _) as [lat_v |]; cbn [bind]; [| discriminate].
  destruct (py_float float_of_string lat_v) as [new_lat |]; cbn [bind];
    [| discriminate].
  destruct (json_get data "lon" _) as [lon_v |]; cbn [bind]; [| discriminate].
  destruct (py_float float_of_string lon_v) as [new_lon |]; cbn [bind];
    [| discriminate].
  destruct (json_text name_v) as [new_name |]; [| discriminate].
  destruct (json_text location_v) as [new_location |]; [| discriminate].
  intros [= <- <-]. exists ns. eexists. repeat split.
Qed.

(** X8. When every key of the registry is a numeral and [int] reads the
    numerals [str] writes, a bin [add_dustbin] adds gets an id that is not
    in the registry: the entry is appended after the existing entries,
    which are left as they were; it has fill 0 and status "EMPTY"; and the
    keys of the new registry are numerals again. *)
Theorem add_dustbin_fresh_id :
  forall (py_int : string -> option Z) (float_of_string : string -> option R)
         (request_json : option json)
         (dustbins d' : list (string * Dustbin)) (new_id : string),
    (forall n, py_int (py_str n) = Some n) ->
    numeral_keys dustbins ->
    add_dustbin py_int float_of_string request_json dustbins = Added d' new_id ->
    dict_has new_id dustbins = false
    /\ (exists b, d' = dustbins ++ [(new_id, b)]
                  /\ fill b = 0 /\ status b = "EMPTY"%string)
    /\ numeral_keys d'.
Proof.
  intros py_int float_of_string request_json dustbins d' new_id Hint Hkeys Hadd.
  destruct (add_dustbin_added _ _ _ _ _ _ Hadd)
    as (ns & b & Hns & Hid & Hd' & Hfill & Hstatus).
  destruct (int_keys_numeral py_int dustbins Hint Hkeys) as (ns' & Hns' & Hmap).
  assert (ns' = ns) by congruence. subst ns'.
  pose proof (new_id_fresh py_int dustbins ns Hint Hmap) as Hfresh.
  rewrite <- Hid in Hfresh.
  rewrite (dict_set_absent _ _ _ Hfresh) in Hd'.
  split; [| split].
  - apply not_true_is_false. now rewrite dict_has_In.
  - now exists b.
  - subst d'. apply Forall_app. split; [exact Hkeys |].
    constructor; [| constructor]. cbn [fst]. eexists. exact Hid.
Qed.

Lemma decimal_int_py_str (n : Z) : decimal_int (py_str n) = Some n.
Proof.
  unfold decimal_int, py_str.
  rewrite NilZero.isi.
  - cbn [option_map]. now rewrite DecimalZ.of_to.
  - destruct n; cbn; try discriminate.
    intros [= H]. now apply (DecimalPos.Unsigned.to_uint_nonnil p).
  - destruct n; cbn; try discriminate.
    intros [= H]. now apply (DecimalPos.Unsigned.to_uint_nonnil p).
Qed.

Lemma dustbins_initial_numeral : numeral_keys dustbins_initial.
Proof.
  constructor; [| constructor]. exists 1%Z. reflexivity.
Defined.

Lemma add_dustbin_fresh_id_witness :
  add_dustbin decimal_int float_75 (Some (JObj [])) dustbins_initial
  = Added (dustbins_initial
           ++ [("2"%string,
                mkDustbin "Bin 2" "Unknown" (1931 / 100) (8402 / 100) 0 "EMPTY")])
          "2"
  /\ dict_has "2" dustbins_initial = false.
Proof.
  split; [reflexivity |].
  exact (proj1 (add_dustbin_fresh_id decimal_int float_75 (Some (JObj []))
                  dustbins_initial _ "2" decimal_int_py_str
                  dustbins_initial_numeral eq_refl)).
Defined.

Lemma bins_to_collect_app (d1 d2 : list (string * Dustbin)) :
  bins_to_collect (d1 ++ d2) = bins_to_collect d1 ++ bins_to_collect d2.
Proof.
  unfold bins_to_collect. now rewrite filter_app, map_app.
Qed.

Lemma optimize_route_bins (shuffle : list Bin -> list Bin) (truck : Truck)
    (d1 d2 : list (string * Dustbin)) :
  bins_to_collect d1 = bins_to_collect d2 ->
  optimize_route shuffle truck d1 = optimize_route shuffle truck d2.
Proof.
  intros Heq. unfold optimize_route. now rewrite Heq.
Qed.

(** X9. Under the same conditions on the keys, adding a bin changes no
    route: the new bin is empty, so the bins to collect are the same
    before and after, and so is the handler's answer for every truck. *)
Theorem add_dustbin_keeps_route :
  forall (py_int : string -> option Z) (float_of_string : string -> option R)
         (request_json : option json)
         (dustbins d' : list (string * Dustbin)) (new_id : string),
    (forall n, py_int (py_str n) = Some n) ->
    numeral_keys dustbins ->
    add_dustbin py_int float_of_string request_json dustbins = Added d' new_id ->
    bins_to_collect d' = bins_to_collect dustbins
    /\ forall shuffle truck,
         optimize_route shuffle truck d' = optimize_route shuffle truck dustbins.
Proof.
  intros py_int float_of_string request_json dustbins d' new_id Hint Hkeys Hadd.
  destruct (add_dustbin_added _ _ _ _ _ _ Hadd)
    as (ns & b & Hns & Hid & Hd' & Hfill & _).
  destruct (int_keys_numeral py_int dustbins Hint Hkeys) as (ns' & Hns' & Hmap).
  assert (ns' = ns) by congruence. subst ns'.
  pose proof (new_id_fresh py_int dustbins ns Hint Hmap) as Hfresh.
  rewrite <- Hid in Hfresh.
  rewrite (dict_set_absent _ _ _ Hfresh) in Hd'.
  assert (Hbins : bins_to_collect d' = bins_to_collect dustbins).
  { subst d'. rewrite bins_to_collect_app.
    unfold bins_to_collect at 2. cbn [filter map snd]. rewrite Hfill.
    destruct (Rle_dec 50 0) as [Hle | _]; [lra |]. cbn [map].
    apply app_nil_r. }
  split; [exact Hbins |].
  intros shuffle truck. now apply optimize_route_bins.
Qed.

Lemma add_dustbin_keeps_route_witness :
  optimize_route keep_order equator_truck
    (dustbins_initial
     ++ [("2"%string,
          mkDustbin "Bin 2" "Unknown" (1931 / 100) (8402 / 100) 0 "EMPTY")])
  = optimize_route keep_order equator_truck dustbins_initial.
Proof.
  exact (proj2 (add_dustbin_keeps_route decimal_int float_75 (Some (JObj []))
                  dustbins_initial _ "2" decimal_int_py_str
                  dustbins_initial_numeral eq_refl) keep_order equator_truck).
Defined.

Lemma dict_del_last (k : string) (v : Dustbin) (d : list (string * Dustbin)) :
  ~ In k (map fst d) -> dict_del k (d ++ [(k, v)]) = d.
Proof.
  intros Hnin. unfold dict_del. rewrite filter_app. cbn [filter fst].
  rewrite String.eqb_refl. cbn [negb]. rewrite app_nil_r.
  now apply dict_del_absent.
Qed.

(** X10. Ids are handed out again: when the bin added last is deleted,
    the registry is as it was before the bin was added, and the next bin
    added gets the id of the deleted one. *)
Theorem add_dustbin_reuses_id :
  forall (py_int : string -> option Z) (float_of_string : string -> option R)
         (request1 request2 : option json)
         (dustbins d1 d2 : list (string * Dustbin)) (id1 id2 : string),
    (forall n, py_int (py_str n) = Some n) ->
    numeral_keys dustbins ->
    add_dustbin py_int float_of_string request1 dustbins = Added d1 id1 ->
    add_dustbin py_int float_of_string request2 (fst (delete_dustbin id1 d1))
    = Added d2 id2 ->
    delete_dustbin id1 d1 = (dustbins, 200%Z) /\ id2 = id1.
Proof.
  intros py_int float_of_string request1 request2 dustbins d1 d2 id1 id2
         Hint Hkeys Hadd1 Hadd2.
  destruct (add_dustbin_added _ _ _ _ _ _ Hadd1)
    as (ns & b & Hns & Hid & Hd1 & _).
  destruct (int_keys_numeral py_int dustbins Hint Hkeys) as (ns' & Hns' & Hmap).
  assert (ns' = ns) by congruence. subst ns'.
  pose proof (new_id_fresh py_int dustbins ns Hint Hmap) as Hfresh.
  rewrite <- Hid in Hfresh.
  rewrite (dict_set_absent _ _ _ Hfresh) in Hd1.
  assert (Hdel : delete_dustbin id1 d1 = (dustbins, 200%Z)).
  { unfold delete_dustbin.
    assert (Hhas : dict_has id1 d1 = true).
    { apply dict_has_In. subst d1. rewrite map_app. apply in_or_app.
      right. now left. }
    rewrite Hhas. subst d1. now rewrite dict_del_last. }
  split; [exact Hdel |].
  rewrite Hdel in Hadd2. cbn [fst] in Hadd2.
  destruct (add_dustbin_added _ _ _ _ _ _ Hadd2) as (ns2 & _ & Hns2 & Hid2 & _).
  congruence.
Qed.

Lemma add_dustbin_reuses_id_witness :
  delete_dustbin "2"
    (dustbins_initial
     ++ [("2"%string,
          mkDustbin "Bin 2" "Unknown" (1931 / 100) (8402 / 100) 0 "EMPTY")])
  = (dustbins_initial, 200%Z).
Proof.
  exact (proj1 (add_dustbin_reuses_id decimal_int float_75
                  (Some (JObj [])) (Some (JObj []))
                  dustbins_initial _ _ "2" "2" decimal_int_py_str
                  dustbins_initial_numeral eq_refl eq_refl)).
Defined.

(** ** [update_truck] *)

(** X11. [update_truck] answers 200 or 400.  On 200 the truck has a
    latitude, a longitude and the new timestamp.  On 400 the longitude
    and the timestamp are as before.  In both cases a coordinate that was
    set stays set, and a coordinate the request body does not mention
    keeps its value. *)
Theorem update_truck_effect :
  forall (float_of_string : string -> option R) (now : string)
         (request_json : option json) (truck : Truck),
    (snd (update_truck float_of_string now request_json truck) = 200%Z
     \/ snd (update_truck float_of_string now request_json truck) = 400%Z)
    /\ (snd (update_truck float_of_string now request_json truck) = 200%Z ->
        exists new_lat new_lon,
          fst (update_truck float_of_string now request_json truck)
          = mkTruck (Some new_lat) (Some new_lon) (Some now))
    /\ (snd (update_truck float_of_string now request_json truck) = 400%Z ->
        truck_lon (fst (update_truck float_of_string now request_json truck))
        = truck_lon truck
        /\ timestamp (fst (update_truck float_of_string now request_json truck))
           = timestamp truck)
    /\ (truck_lat truck <> None ->
        truck_lat (fst (update_truck float_of_string now request_json truck))
        <> None)
    /\ (truck_lon truck <> None ->
        truck_lon (fst (update_truck float_of_string now request_json truck))
        <> None)
    /\ (forall members, request_json = Some (JObj members) ->
        (json_lookup "lat" members = None ->
         truck_lat (fst (update_truck float_of_string now request_json truck))
         = truck_lat truck)
        /\ (json_lookup "lon" members = None ->
            truck_lon (fst (update_truck float_of_string now request_json truck))
            = truck_lon truck)).
Proof.
  intros float_of_string now request_json truck.
  destruct truck as [tlat tlon ts]. unfold update_truck.
  cbn [truck_lat truck_lon timestamp].
  destruct request_json as [data |].
  2: { cbn [fst snd truck_lat truck_lon timestamp].
       repeat split; auto; try discriminate. }
  destruct data as [| b | x | s | items | members];
    try (cbn [json_get bind fst snd truck_lat truck_lon timestamp];
         repeat split; auto; discriminate).
  cbn [json_get bind].
  destruct (json_lookup "lat" members) as [lat_v |] eqn:Hlat;
    destruct (json_lookup "lon" members) as [lon_v |] eqn:Hlon;
    destruct tlat as [la |]; destruct tlon as [lo |];
    cbn [py_value py_float];
    repeat match goal with
           | |- context [py_float float_of_string ?v] =>
               destruct (py_float float_of_string v)
           end;
    cbn [fst snd truck_lat truck_lon timestamp];
    (split; [auto |]);
    (split; [intros; try discriminate; eauto |]);
    (split; [intros; try discriminate; auto |]);
    (split; [intros; try discriminate; auto |]);
    (split; [intros; try discriminate; auto |]);
    intros members' [= <-]; rewrite ?Hlat, ?Hlon;
    split; intros; try discriminate; auto.
Qed.

(** X12. After a position update answered with 200 the route handler no
    longer answers the GPS error, whatever the bins are. *)
Theorem update_truck_enables_route :
  forall (float_of_string : string -> option R) (now : string)
         (request_json : option json) (truck : Truck),
    snd (update_truck float_of_string now request_json truck) = 200%Z ->
    forall shuffle dustbins e,
      fst (optimize_route shuffle
             (fst (update_truck float_of_string now request_json truck))
             dustbins)
      <> ErrorBody e.
Proof.
  intros float_of_string now request_json truck Hok shuffle dustbins e.
  destruct (update_truck_effect float_of_string now request_json truck)
    as (_ & Hset & _).
  destruct (Hset Hok) as (new_lat & new_lon & ->).
  unfold optimize_route; cbn [truck_lat truck_lon].
  destruct (bins_to_collect dustbins); [discriminate |].
  destruct (evaluate shuffle (new_lat, new_lon) _); discriminate.
Qed.

Lemma update_truck_enables_route_witness :
  snd (update_truck float_75 "2025-01-01T00:00:00"
         (Some (JObj [("lat"%string, JNum 0); ("lon"%string, JStr "75")]))
         truck_initial) = 200%Z
  /\ forall e,
       fst (optimize_route keep_order
              (fst (update_truck float_75 "2025-01-01T00:00:00"
                      (Some (JObj [("lat"%string, JNum 0);
                                   ("lon"%string, JStr "75")]))
                      truck_initial))
              dustbins_initial)
       <> ErrorBody e.
Proof.
  split; [reflexivity |].
  exact (update_truck_enables_route float_75 "2025-01-01T00:00:00"
           (Some (JObj [("lat"%string, JNum 0); ("lon"%string, JStr "75")]))
           truck_initial eq_refl keep_order dustbins_initial).
Defined.

(** X13. A request body that is an object without "lon", sent while the
    truck has no longitude, is answered with 400 and the route handler
    keeps answering the GPS error; a "lat" of that request that is a
    number a float holds is stored all the same. *)
Theorem update_truck_partial :
  forall (float_of_string : string -> option R) (now : string)
         (members : list (string * json)) (truck : Truck),
    truck_lon truck = None ->
    json_lookup "lon" members = None ->
    snd (update_truck float_of_string now (Some (JObj members)) truck) = 400%Z
    /\ (forall shuffle dustbins,
          optimize_route shuffle
            (fst (update_truck float_of_string now (Some (JObj members)) truck))
            dustbins
          = (ErrorBody gps_error, 400%Z))
    /\ (forall x, binary64 x ->
          json_lookup "lat" members = Some (JNum x) ->
          truck_lat
            (fst (update_truck float_of_string now (Some (JObj members)) truck))
          = Some x).
Proof.
  intros float_of_string now members truck Hlon Hmem.
  destruct truck as [tlat tlon ts]. cbn [truck_lon] in Hlon. subst tlon.
  unfold update_truck. cbn [json_get bind truck_lat truck_lon timestamp].
  rewrite Hmem. cbn [py_value py_float].
  destruct (json_lookup "lat" members) as [lat_v |];
    [| destruct tlat as [la |]; cbn [py_value] ];
    repeat match goal with
           | |- context [py_float float_of_string ?v] =>
               destruct (py_float float_of_string v) eqn:?
           end;
    cbn [fst snd truck_lat];
    (split; [reflexivity |]);
    (split; [intros; unfold optimize_route; cbn [truck_lat truck_lon];
             try reflexivity; now destruct tlat |]);
    intros x _ Hx; try discriminate; injection Hx as ->;
    cbn [py_float] in *; congruence.
Qed.

Lemma binary64_zero : binary64 0.
Proof.
  exists 0%Z, 0%Z. split; [reflexivity |]. split; [lia |].
  now rewrite Rmult_0_l.
Defined.

Lemma update_truck_partial_witness :
  snd (update_truck float_75 "2025-01-01T00:00:00"
         (Some (JObj [("lat"%string, JNum 0)])) truck_initial) = 400%Z
  /\ truck_lat
       (fst (update_truck float_75 "2025-01-01T00:00:00"
               (Some (JObj [("lat"%string, JNum 0)])) truck_initial))
     = Some 0.
Proof.
  destruct (update_truck_partial float_75 "2025-01-01T00:00:00"
              [("lat"%string, JNum 0)] truck_initial eq_refl eq_refl)
    as (Hstatus & _ & Hlat).
  split; [exact Hstatus | exact (Hlat 0 binary64_zero eq_refl)].
Defined.

(** ** The sensor feed *)

Lemma dict_set_keys (k : string) (v : Dustbin) (d : list (string * Dustbin)) :
  In k (map fst d) -> map fst (dict_set k v d) = map fst d.
Proof.
  induction d as [| kv d IH]; intros Hin; [destruct Hin |].
  cbn [dict_set]. destruct (String.eqb_spec (fst kv) k) as [Hk | Hk].
  - cbn [map fst]. now rewrite Hk.
  - cbn [map]. f_equal. apply IH. destruct Hin as [Hin | Hin]; tauto.
Qed.

Lemma dict_get_set_other (k k' : string) (v : Dustbin)
    (d : list (string * Dustbin)) :
  k' <> k -> dict_get k' (dict_set k v d) = dict_get k' d.
Proof.
  intros Hne. induction d as [| kv d IH]; cbn [dict_set dict_get].
  - cbn [fst]. destruct (String.eqb_spec k k'); [congruence | reflexivity].
  - destruct (String.eqb_spec (fst kv) k) as [Hk | Hk]; cbn [dict_get fst].
    + destruct (String.eqb_spec k k'); [congruence |].
      destruct (String.eqb_spec (fst kv) k'); [congruence | reflexivity].
    + now rewrite IH.
Qed.

Lemma dict_get_set_same (k : string) (v : Dustbin) (d : list (string * Dustbin)) :
  dict_get k (dict_set k v d) = Some v.
Proof.
  induction d as [| kv d IH]; cbn [dict_set dict_get fst snd].
  - now rewrite String.eqb_refl.
  - destruct (String.eqb_spec (fst kv) k) as [Hk | Hk]; cbn [dict_get fst snd].
    + now rewrite String.eqb_refl.
    + destruct (String.eqb_spec (fst kv) k); [contradiction | exact IH].
Qed.

Lemma dict_get_In (k : string) (d : list (string * Dustbin)) (b : Dustbin) :
  dict_get k d = Some b -> In (k, b) d.
Proof.
  induction d as [| kv d IH]; cbn [dict_get]; [discriminate |].
  destruct (String.eqb_spec (fst kv) k) as [Hk | _].
  - intros [= <-]. left. destruct kv; cbn [fst snd] in *. now subst.
  - intros H. right. now apply IH.
Qed.

(** What one line can do to the registry. *)
Lemma read_arduino_line_cases (float_of_string : string -> option R)
    (line : string) (dustbins : list (string * Dustbin)) :
  read_arduino_line float_of_string line dustbins = dustbins
  \/ exists fill_level b,
       String.prefix "DATA|" line = true
       /\ dict_get "1" dustbins = Some b
       /\ read_arduino_line float_of_string line dustbins
          = dict_set "1" (sensor_reading fill_level b) dustbins.
Proof.
  unfold read_arduino_line.
  destruct (String.prefix "DATA|" line); [| now left].
  destruct (str_split "|" (str_replace "DATA|" "" line)) as [| part0 parts];
    [now left |].
  destruct (float_of_string part0) as [fill_level |]; [| now left].
  destruct (dict_get "1" dustbins) as [b |] eqn:Hb; [| now left].
  right. now exists fill_level, b.
Qed.

(** X14. A line of the sensor feed never adds, removes or reorders a bin
    and never touches a bin other than "1"; of bin "1" it leaves the
    name, the location and the position as they are; and a line that does
    not start with "DATA|" changes nothing. *)
Theorem read_arduino_line_effect :
  forall (float_of_string : string -> option R) (line : string)
         (dustbins : list (string * Dustbin)),
    map fst (read_arduino_line float_of_string line dustbins) = map fst dustbins
    /\ (forall k, k <> "1"%string ->
          dict_get k (read_arduino_line float_of_string line dustbins)
          = dict_get k dustbins)
    /\ (forall b, dict_get "1" dustbins = Some b ->
          exists b',
            dict_get "1" (read_arduino_line float_of_string line dustbins)
            = Some b'
            /\ name b' = name b /\ location b' = location b
            /\ lat b' = lat b /\ lon b' = lon b)
    /\ (String.prefix "DATA|" line = false ->
          read_arduino_line float_of_string line dustbins = dustbins).
Proof.
  intros float_of_string line dustbins.
  destruct (read_arduino_line_cases float_of_string line dustbins)
    as [Hsame | (fill_level & b & Hprefix & Hb & Hset)].
  - rewrite Hsame. repeat split; auto.
    intros b Hb. exists b. auto.
  - rewrite Hset. split; [| split; [| split]].
    + apply dict_set_keys. apply dict_get_In in Hb.
      apply in_map_iff. now exists ("1"%string, b).
    + intros k Hk. now apply dict_get_set_other.
    + intros b0 Hb0. assert (b0 = b) by congruence. subst b0.
      exists (sensor_reading fill_level b).
      rewrite dict_get_set_same. repeat split.
    + congruence.
Qed.

Lemma sensor_reading_status (fill_level : R) (b : Dustbin) :
  status_matches (sensor_reading fill_level b).
Proof.
  unfold status_matches, sensor_reading; cbn [fill status].
  destruct (Rle_dec 80 fill_level); [repeat split; intros; try reflexivity; lra |].
  destruct (Rle_dec 50 fill_level); repeat split; intros; try reflexivity; lra.
Qed.

Lemma dict_set_Forall (P : string * Dustbin -> Prop) (k : string) (v : Dustbin)
    (d : list (string * Dustbin)) :
  P (k, v) -> Forall P d -> Forall P (dict_set k v d).
Proof.
  intros Hv. induction 1 as [| kv d Hkv Hd IH]; cbn [dict_set].
  - now constructor.
  - destruct (String.eqb (fst kv) k); constructor; auto.
Qed.

(** X15. The registry keeps the statuses in step with the fill levels:
    when every bin has the status of its fill level ("FULL" from 80,
    "MEDIUM" from 50, "EMPTY" below), this is still so after a line of the
    sensor feed, after a deletion and after an addition. *)
Theorem status_matches_kept :
  forall dustbins : list (string * Dustbin),
    Forall (fun kv => status_matches (snd kv)) dustbins ->
    (forall float_of_string line,
       Forall (fun kv => status_matches (snd kv))
              (read_arduino_line float_of_string line dustbins))
    /\ (forall bin_id,
          Forall (fun kv => status_matches (snd kv))
                 (fst (delete_dustbin bin_id dustbins)))
    /\ (forall py_int float_of_string request_json d' new_id,
          add_dustbin py_int float_of_string request_json dustbins
          = Added d' new_id ->
          Forall (fun kv => status_matches (snd kv)) d').
Proof.
  intros dustbins Hinv. split; [| split].
  - intros float_of_string line.
    destruct (read_arduino_line_cases float_of_string line dustbins)
      as [-> | (fill_level & b & _ & _ & ->)]; [exact Hinv |].
    apply dict_set_Forall; [apply sensor_reading_status | exact Hinv].
  - intros bin_id. unfold delete_dustbin.
    destruct (dict_has bin_id dustbins); cbn [fst]; [| exact Hinv].
    unfold dict_del. rewrite Forall_forall in *.
    intros kv Hkv. apply filter_In in Hkv. now apply Hinv.
  - intros py_int float_of_string request_json d' new_id Hadd.
    destruct (add_dustbin_added _ _ _ _ _ _ Hadd)
      as (ns & b & _ & _ & -> & Hfill & Hstatus).
    apply dict_set_Forall; [| exact Hinv].
    unfold status_matches; cbn [snd]. rewrite Hfill, Hstatus.
    repeat split; intros; try reflexivity; lra.
Qed.

Lemma dustbins_initial_status :
  Forall (fun kv => status_matches (snd kv)) dustbins_initial.
Proof.
  constructor; [| constructor].
  unfold status_matches; cbn [snd fill status].
  split; [| split]; intros H; [exfalso; lra | exfalso; lra | reflexivity].
Defined.

Lemma status_matches_kept_witness :
  Forall (fun kv => status_matches (snd kv))
         (read_arduino_line float_75 "DATA|75" dustbins_initial).
Proof.
  exact (proj1 (status_matches_kept dustbins_initial dustbins_initial_status)
           float_75 "DATA|75"%string).
Defined.

(** X16. When every bin has the status of its fill level, the bins to
    collect are the bins whose status is not "EMPTY". *)
Theorem bins_to_collect_by_status :
  forall dustbins : list (string * Dustbin),
    Forall (fun kv => status_matches (snd kv)) dustbins ->
    bins_to_collect dustbins
    = map (fun kv => mkBin (fst kv) (name (snd kv)) (lat (snd kv))
                           (lon (snd kv)) (fill (snd kv)))
          (filter (fun kv => negb (String.eqb (status (snd kv)) "EMPTY"))
                  dustbins).
Proof.
  intros dustbins Hinv. unfold bins_to_collect. f_equal.
  apply filter_ext_in. intros kv Hkv.
  rewrite Forall_forall in Hinv. destruct (Hinv kv Hkv) as (Hfull & Hmed & Hempty).
  destruct (Rle_dec 50 (fill (snd kv))) as [Hge | Hlt].
  - destruct (Rle_dec 80 (fill (snd kv))) as [H80 | H80].
    + now rewrite (Hfull H80).
    + rewrite Hmed by lra. reflexivity.
  - rewrite Hempty by lra. reflexivity.
Qed.

Lemma bins_to_collect_by_status_witness :
  bins_to_collect dustbins_initial
  = map (fun kv => mkBin (fst kv) (name (snd kv)) (lat (snd kv))
                         (lon (snd kv)) (fill (snd kv)))
        (filter (fun kv => negb (String.eqb (status (snd kv)) "EMPTY"))
                dustbins_initial).
Proof.
  exact (bins_to_collect_by_status dustbins_initial dustbins_initial_status).
Defined.

Lemma prefix_DATA_has_bar (s : string) :
  String.prefix "DATA|" s = true -> str_has "|" s = true.
Proof.
  intros H.
  do 5 (destruct s as [| ? s]; [discriminate |];
        cbn [String.prefix] in H;
        match type of H with
        | context [ascii_dec ?a ?b] =>
            destruct (ascii_dec a b) as [<- |]; [| discriminate]
        end).
  reflexivity.
Qed.

Lemma prefix_DATA_app (payload : string) :
  String.prefix "DATA|" ("DATA|" ++ payload) = true.
Proof.
  cbn. repeat (match goal with
               | |- context [ascii_dec ?a ?b] =>
                   destruct (ascii_dec a b); [| congruence]
               end).
  now destruct payload.
Qed.

Lemma str_replace_no_bar (new s : string) :
  str_has "|" s = false -> str_replace_from "DATA|" new 0 s = s.
Proof.
  induction s as [| c s IH]; intros Hbar; [reflexivity |].
  cbn [str_replace_from].
  destruct (String.prefix "DATA|" (String c s)) eqn:Hp.
  - apply prefix_DATA_has_bar in Hp. congruence.
  - f_equal. apply IH. cbn [str_has] in Hbar.
    now apply orb_false_elim in Hbar.
Qed.

Lemma str_split_no_bar (s : string) :
  str_has "|" s = false -> str_split "|" s = [s].
Proof.
  induction s as [| c s IH]; intros Hbar; [reflexivity |].
  cbn [str_has] in Hbar. apply orb_false_elim in Hbar. destruct Hbar as [Hc Hs].
  cbn [str_split]. rewrite Hc, (IH Hs). reflexivity.
Qed.

Lemma str_replace_DATA_line (payload : string) :
  str_has "|" payload = false ->
  str_replace "DATA|" "" ("DATA|" ++ payload) = payload.
Proof.
  intros Hbar. unfold str_replace.
  pose proof (prefix_DATA_app payload) as Hp.
  change ("DATA|" ++ payload)%string
    with (String "D" (String "A" (String "T" (String "A" (String "|" payload)))))
    in *.
  cbn [str_replace_from]. rewrite Hp.
  cbn [String.length Nat.sub str_replace_from String.append].
  now apply str_replace_no_bar.
Qed.

(** X17. A line "DATA|" followed by one field without "|" that [float]
    reads as a number, received while bin "1" exists, stores that number
    as the fill level of bin "1" with the status of that level: "FULL"
    from 80, "MEDIUM" from 50, "EMPTY" below. *)
Theorem read_arduino_line_reading :
  forall (float_of_string : string -> option R) (payload : string)
         (dustbins : list (string * Dustbin)) (fill_level : R) (b : Dustbin),
    str_has "|" payload = false ->
    float_of_string payload = Some fill_level ->
    dict_get "1" dustbins = Some b ->
    exists b',
      dict_get "1" (read_arduino_line float_of_string ("DATA|" ++ payload) dustbins)
      = Some b'
      /\ fill b' = fill_level
      /\ (80 <= fill_level -> status b' = "FULL"%string)
      /\ (50 <= fill_level < 80 -> status b' = "MEDIUM"%string)
      /\ (fill_level < 50 -> status b' = "EMPTY"%string).
Proof.
  intros float_of_string payload dustbins fill_level b Hbar Hfloat Hb.
  exists (sensor_reading fill_level b).
  unfold read_arduino_line.
  rewrite prefix_DATA_app, (str_replace_DATA_line payload Hbar).
  rewrite (str_split_no_bar payload Hbar), Hfloat, Hb.
  rewrite dict_get_set_same. split; [reflexivity |].
  split; [reflexivity |].
  exact (sensor_reading_status fill_level b).
Qed.

Lemma read_arduino_line_reading_witness :
  exists b',
    dict_get "1" (read_arduino_line float_75 "DATA|75" dustbins_initial) = Some b'
    /\ fill b' = 75 /\ status b' = "MEDIUM"%string.
Proof.
  destruct (read_arduino_line_reading float_75 "75" dustbins_initial 75
              (mkDustbin "Bin 1 - MITS College" "Bhujabal, Rayagada"
                         (192461 / 10000) (834462 / 10000) 0 "EMPTY")
              eq_refl eq_refl eq_refl)
    as (b' & Hget & Hfill & _ & Hmedium & _).
  exists b'. split; [exact Hget |]. split; [exact Hfill |].
  apply Hmedium. split; lra.
Defined.

(** ** [get_predictions] *)

Lemma insert_by_days_perm (p : prediction) (l : list prediction) :
  Permutation (p :: l) (insert_by_days p l).
Proof.
  induction l as [| q l IH]; cbn [insert_by_days]; [reflexivity |].
  destruct (Rlt_dec _ _); [| reflexivity].
  rewrite perm_swap. now apply perm_skip.
Qed.

Lemma sorted_by_days_perm (l : list prediction) :
  Permutation l (sorted_by_days l).
Proof.
  induction l as [| p l IH]; [reflexivity |].
  cbn [sorted_by_days fold_right]. fold (sorted_by_days l).
  rewrite <- insert_by_days_perm. now apply perm_skip.
Qed.

Lemma insert_by_days_sorted (p : prediction) (l : list prediction) :
  StronglySorted (fun a b => days_until_full a <= days_until_full b) l ->
  StronglySorted (fun a b => days_until_full a <= days_until_full b)
                 (insert_by_days p l).
Proof.
  induction 1 as [| q l Hl IH Hq]; cbn [insert_by_days].
  - repeat constructor.
  - destruct (Rlt_dec (days_until_full q) (days_until_full p)) as [Hlt | Hge].
    + constructor; [exact IH |].
      apply (Permutation_Forall (insert_by_days_perm p l)).
      constructor; [lra | exact Hq].
    + constructor; [now constructor |].
      constructor; [lra |].
      eapply Forall_impl; [| exact Hq]. cbn. intros; lra.
Qed.

Lemma sorted_by_days_sorted (l : list prediction) :
  StronglySorted (fun a b => days_until_full a <= days_until_full b)
                 (sorted_by_days l).
Proof.
  induction l as [| p l IH]; [constructor |].
  cbn [sorted_by_days fold_right]. now apply insert_by_days_sorted.
Qed.

Lemma get_predictions_In (dustbins : list (string * Dustbin)) (p : prediction) :
  In p (get_predictions dustbins) ->
  exists kv, In kv dustbins /\ fill (snd kv) < 100 /\ p = prediction_of kv.
Proof.
  unfold get_predictions. intros Hin.
  apply (Permutation_in _ (Permutation_sym (sorted_by_days_perm _))) in Hin.
  apply in_map_iff in Hin. destruct Hin as (kv & <- & Hkv).
  apply filter_In in Hkv. destruct Hkv as [Hkv Hfill].
  exists kv. destruct (Rlt_dec (fill (snd kv)) 100); [auto | discriminate].
Qed.

(** X18. [get_predictions] lists every bin filled below 100 once and no
    other bin, in ascending order of the rounded days until full; every
    entry carries the fill level of its bin, which is below 100, and a
    number of days that is not negative. *)
Theorem get_predictions_sorted :
  forall dustbins : list (string * Dustbin),
    StronglySorted (fun a b => days_until_full a <= days_until_full b)
                   (get_predictions dustbins)
    /\ Permutation
         (map prediction_of
              (filter (fun kv => if Rlt_dec (fill (snd kv)) 100 then true else false)
                      dustbins))
         (get_predictions dustbins)
    /\ (forall p, In p (get_predictions dustbins) ->
          current_fill p < 100 /\ 0 <= days_until_full p
          /\ exists b, In (p_bin_id p, b) dustbins
                       /\ current_fill p = fill b /\ p_name p = name b).
Proof.
  intros dustbins. split; [| split].
  - apply sorted_by_days_sorted.
  - apply sorted_by_days_perm.
  - intros p Hp.
    destruct (get_predictions_In dustbins p Hp) as (kv & Hkv & Hfill & ->).
    unfold prediction_of; cbn [current_fill days_until_full p_bin_id p_name].
    split; [exact Hfill |]. split.
    + unfold py_round_ndigits.
      assert (Hz : (0 <= round_half_even ((100 - fill (snd kv)) / 15 * 10 ^ 1))%Z).
      { apply round_half_even_ge. simpl. lra. }
      apply IZR_le in Hz. simpl pow.
      apply Rmult_le_pos; [exact Hz | lra].
    + exists (snd kv). now destruct kv.
Qed.

Lemma round_half_even_below (x : R) (z : Z) :
  x < IZR z + 1 / 2 -> (round_half_even x <= z)%Z.
Proof.
  intros Hx. pose proof (round_half_even_near x) as [Hlo _].
  assert (H : IZR (round_half_even x) < IZR (z + 1))
    by (rewrite plus_IZR; lra).
  apply lt_IZR in H. lia.
Qed.

Lemma round_half_even_above (x : R) (z : Z) :
  IZR z - 1 / 2 < x -> (z <= round_half_even x)%Z.
Proof.
  intros Hx. pose proof (round_half_even_near x) as [_ Hhi].
  assert (H : IZR (z - 1) < IZR (round_half_even x))
    by (rewrite minus_IZR; lra).
  apply lt_IZR in H. lia.
Qed.

Lemma prediction_of_critical (kv : string * Dustbin) :
  urgency (prediction_of kv) = "CRITICAL"%string ->
  days_until_full (prediction_of kv) <= 13 / 10.
Proof.
  unfold prediction_of; cbn [urgency days_until_full].
  destruct (Rle_dec 80 (fill (snd kv))) as [H80 | _];
    [| destruct (Rle_dec 60 (fill (snd kv))); discriminate].
  intros _. unfold py_round_ndigits.
  assert (Hz : (round_half_even ((100 - fill (snd kv)) / 15 * 10 ^ 1) <= 13)%Z).
  { apply round_half_even_below. simpl. lra. }
  apply IZR_le in Hz. simpl pow in *. lra.
Qed.

Lemma prediction_of_medium (kv : string * Dustbin) :
  urgency (prediction_of kv) = "MEDIUM"%string ->
  27 / 10 <= days_until_full (prediction_of kv).
Proof.
  unfold prediction_of; cbn [urgency days_until_full].
  destruct (Rle_dec 80 (fill (snd kv))) as [H80 | H80]; [discriminate |].
  destruct (Rle_dec 60 (fill (snd kv))) as [H60 | H60]; [discriminate |].
  intros _. unfold py_round_ndigits.
  assert (Hz : (27 <= round_half_even ((100 - fill (snd kv)) / 15 * 10 ^ 1))%Z).
  { apply round_half_even_above. simpl. lra. }
  apply IZR_le in Hz. simpl pow in *. lra.
Qed.

Lemma StronglySorted_weaken (R1 R2 : prediction -> prediction -> Prop)
    (l : list prediction) :
  (forall a b, In a l -> In b l -> R1 a b -> R2 a b) ->
  StronglySorted R1 l -> StronglySorted R2 l.
Proof.
  intros Himp Hs. induction Hs as [| a l Hl IH Ha]; [constructor |].
  constructor.
  - apply IH. intros x y Hx Hy. apply Himp; now right.
  - rewrite Forall_forall in *. intros b Hb.
    apply Himp; [now left | now right | now apply Ha].
Qed.

(** X19. In the list of [get_predictions] no bin of urgency "MEDIUM"
    comes before a bin of urgency "CRITICAL". *)
Theorem get_predictions_critical_first :
  forall dustbins : list (string * Dustbin),
    StronglySorted
      (fun a b => ~ (urgency a = "MEDIUM"%string /\ urgency b = "CRITICAL"%string))
      (get_predictions dustbins).
Proof.
  intros dustbins.
  apply (StronglySorted_weaken
           (fun a b => days_until_full a <= days_until_full b)).
  - intros a b Ha Hb Hle [Hmed Hcrit].
    destruct (get_predictions_In dustbins a Ha) as (kva & _ & _ & ->).
    destruct (get_predictions_In dustbins b Hb) as (kvb & _ & _ & ->).
    apply prediction_of_medium in Hmed. apply prediction_of_critical in Hcrit.
    lra.
  - apply sorted_by_days_sorted.
Qed.

(** ** The solver when distance grows with longitude *)





